(** * Lock-file regeneration scripts: a shallow embedding

    Two Python scripts are modelled here:

    - Variant A, [scripts/generate-test-fixtures.py]: globs
      [tests/data/pixi/*/pyproject.toml], deletes a stale [pixi.lock],
      runs [pixi install] with a 300 second timeout, counts successes and
      failures, optionally removes the [.pixi] folders, prints a summary;
    - Variant B, [tests/data/mkdocs-deploy/generate-pixi-locks.py]: walks a
      fixed list of three directory names and runs [pixi install] with
      [check=True], leaving at the first failure.

    The scripts are effectful: they read and change the file system, spawn a
    child process and write to standard output.  The embedding threads a
    [world] (file system and output so far) through a small monad whose
    computations end normally, raise a Python exception, or never return.
    The external tool is a variable of the development: a function from the
    working directory and the file system the child starts in to how the
    child behaves and what it leaves behind. *)

From stdpp Require Import base option list strings gmap fin_maps pretty.
From Stdlib Require Import ZArith Lia Ascii.

Local Open Scope string_scope.
Local Open Scope list_scope.

(** ** Paths ([pathlib.Path]) *)

Module Path.

(** A path is its sequence of components. *)
Definition t : Type := list string.

(** [p / name] for a single component. *)
Definition child (p : t) (name : string) : t := p ++ [name].

(** [p / q] where [q] has several components ("tests/data/pixi"). *)
Definition join (p q : t) : t := p ++ q.

(** [p.parent] *)
Definition parent (p : t) : t := removelast p.

(** [p.name] *)
Definition name (p : t) : string := List.last p "".

(** [str(p)] *)
Definition str (p : t) : string := String.concat "/" p.

(** [Path(s)]: the components of [s] between slashes. *)
Fixpoint split_slash (s cur : string) : list string :=
  match s with
  | EmptyString => [cur]
  | String c s' =>
      if Ascii.eqb c "/"%char then cur :: split_slash s' ""
      else split_slash s' (cur +:+ String c "")
  end.

Definition of_string (s : string) : t :=
  filter (λ c, c ≠ "") (split_slash s "").

(** [p] relative to [d], when [p] is [d] or lies below it. *)
Fixpoint relative_to (d p : t) : option t :=
  match d, p with
  | [], _ => Some p
  | x :: d', y :: p' => if decide (x = y) then relative_to d' p' else None
  | _ :: _, [] => None
  end.

(** Is [p] equal to [d] or below it? *)
Definition under (d p : t) : bool :=
  bool_decide (is_Some (relative_to d p)).

End Path.

Abbreviation path := Path.t.
Infix "/:" := Path.child (at level 40, left associativity).

(** ** The file system *)

Inductive node := File | Dir.

#[global] Instance node_eq_dec : EqDecision node.
Proof. solve_decision. Defined.

Abbreviation filesystem := (gmap path node).

Module FS.

(** [Path.exists()] *)
Definition exists_ (fs : filesystem) (p : path) : bool :=
  bool_decide (is_Some (fs !! p)).

(** [fixtures_dir.glob("*/" + name)]: the entries [dir/x/name], in the
    order in which the file system enumerates them. *)
Definition glob_pattern (dir : path) (name : string) (p : path) : bool :=
  match Path.relative_to dir p with
  | Some [_; n] => bool_decide (n = name)
  | _ => false
  end.

Definition glob_children (fs : filesystem) (dir : path) (name : string)
  : list path :=
  filter (λ p, glob_pattern dir name p = true) (map_to_list fs).*1.

(** What is left once the tree rooted at [p] is gone. *)
Definition remove_tree (fs : filesystem) (p : path) : filesystem :=
  filter (λ kv, Path.under p kv.1 = false) fs.

End FS.

(** ** Python exceptions *)

Inductive exn :=
| FileNotFoundError (filename : string)
| IsADirectoryError (filename : string)
| NotADirectoryError (filename : string)
| PermissionError (filename : string)
| TimeoutExpired (cmd : list string) (timeout : nat)
| CalledProcessError (returncode : Z) (cmd : list string) (stdout stderr : string)
| SystemExit (code : Z).

(** [isinstance(e, Exception)]: everything here but [SystemExit], which
    derives from [BaseException] only. *)
Definition is_Exception (e : exn) : bool :=
  match e with SystemExit _ => false | _ => true end.

(** [isinstance(e, OSError)] *)
Definition is_OSError (e : exn) : bool :=
  match e with
  | FileNotFoundError _ | IsADirectoryError _
  | NotADirectoryError _ | PermissionError _ => true
  | _ => false
  end.

(** [str(e)], as interpolated by an f-string. *)
Definition exn_str (e : exn) : string :=
  match e with
  | FileNotFoundError f => "[Errno 2] No such file or directory: '" +:+ f +:+ "'"
  | IsADirectoryError f => "[Errno 21] Is a directory: '" +:+ f +:+ "'"
  | NotADirectoryError f => "[Errno 20] Not a directory: '" +:+ f +:+ "'"
  | PermissionError f => "[Errno 13] Permission denied: '" +:+ f +:+ "'"
  | TimeoutExpired cmd t =>
      "Command '" +:+ String.concat " " cmd +:+ "' timed out after "
        +:+ pretty t +:+ " seconds"
  | CalledProcessError rc cmd _ _ =>
      "Command '" +:+ String.concat " " cmd
        +:+ "' returned non-zero exit status " +:+ pretty rc +:+ "."
  | SystemExit c => pretty c
  end.

(** ** The child process *)

(** Keyword arguments of [subprocess.run] that the scripts use. *)
Record run_request := RunRequest {
  req_args : list string;
  req_cwd : path;
  req_capture_output : bool;
  req_text : bool;
  req_timeout : option nat;   (* seconds; [None] waits for ever *)
  req_check : bool
}.

(** [subprocess.CompletedProcess] *)
Record CompletedProcess := Completed {
  returncode : Z;
  stdout : string;
  stderr : string
}.

(** What the executable named by [args[0]] does once asked to start. *)
Inductive behaviour :=
| NotInstalled
| Terminates (seconds : nat) (result : CompletedProcess)
| Hangs.

(** ** What the scripts print *)

Inductive message :=
(* scripts/generate-test-fixtures.py *)
| MsgFixturesDirNotFound (fixtures_dir : path)
| MsgNoFilesFound
| MsgFound (n : nat)
| MsgProcessing (test_name : string)
| MsgLocation (toml_file : path)
| MsgLockExists
| MsgGenerating
| MsgGenerated
| MsgFailedToGenerate
| MsgError (stderr : string)
| MsgTimeout
| MsgPixiNotFound
| MsgVisit
| MsgCleaningUp
| MsgDeleted (test_name : string)
| MsgFailedToDelete (test_name : string) (e : exn)
| MsgNoPixiFolder (test_name : string)
| MsgCleaned (cleaned_count failed_count : nat)
| MsgSearching
| MsgNothingToProcess
| MsgAborted
| MsgRule
| MsgComplete
| MsgSuccess (success_count : nat)
| MsgFailed (failed_count : nat)
| MsgSomeFailed
(* tests/data/mkdocs-deploy/generate-pixi-locks.py *)
| MsgBDirNotFound (dir_path : path)
| MsgBGenerating (dir_name : string)
| MsgBGenerated (dir_name : string)
| MsgBFailed (dir_name : string)
| MsgBError (stderr : string)
| MsgBPixiNotFound
| MsgBCurl
| MsgBAllGenerated.

(** ** Events and the world *)

Inductive event :=
| EPrint (m : message)                       (* [print(...)] *)
| EUnlink (p : path)                         (* a file was removed *)
| ERmtree (p : path)                         (* a tree was removed *)
| ESpawn (req : run_request) (before : filesystem).
                                             (* [subprocess.run] was called
                                                on this file system *)

Record world := World {
  fs : filesystem;
  denied : gset path;     (* entries the OS refuses to remove *)
  out : list event        (* oldest first *)
}.

Definition set_fs (w : world) (fs' : filesystem) : world :=
  World fs' (denied w) (out w).

Definition emit (w : world) (e : event) : world :=
  World (fs w) (denied w) (out w ++ [e]).

(** ** Computations *)

Inductive outcome (A : Type) :=
| Done (a : A)
| Raised (e : exn)
| Hung.
Arguments Done {A} a.
Arguments Raised {A} e.
Arguments Hung {A}.

Definition M (A : Type) : Type := world → outcome A * world.

Definition ret {A} (a : A) : M A := λ w, (Done a, w).

Definition bind {A B} (m : M A) (k : A → M B) : M B :=
  λ w, match m w with
       | (Done a, w') => k a w'
       | (Raised e, w') => (Raised e, w')
       | (Hung, w') => (Hung, w')
       end.

Definition raise {A} (e : exn) : M A := λ w, (Raised e, w).

(** [try: body  except ...: handler]; [handler e = None] when no clause
    matches [e]. *)
Definition try_except {A} (body : M A) (handler : exn → option (M A)) : M A :=
  λ w, match body w with
       | (Raised e, w') =>
           match handler e with
           | Some h => h w'
           | None => (Raised e, w')
           end
       | r => r
       end.

Declare Scope py_scope.
Delimit Scope py_scope with py.
Bind Scope py_scope with M.
Notation "x <- m ;; k" := (bind m (λ x, k))
  (at level 100, m at next level, k at level 200, right associativity)
  : py_scope.
Notation "m ;; k" := (bind m (λ _, k))
  (at level 100, k at level 200, right associativity) : py_scope.
Local Open Scope py_scope.

(** ** Primitive operations *)

(** [print(m)] *)
Definition print (m : message) : M unit :=
  λ w, (Done tt, emit w (EPrint m)).

(** [p.exists()] *)
Definition path_exists (p : path) : M bool :=
  λ w, (Done (FS.exists_ (fs w) p), w).

(** [p.unlink()]: removes a regular file; raises an [OSError] when there is
    nothing at [p], when [p] is a directory, or when the OS refuses. *)
Definition unlink_error (w : world) (p : path) : option exn :=
  match fs w !! p with
  | None => Some (FileNotFoundError (Path.str p))
  | Some Dir => Some (IsADirectoryError (Path.str p))
  | Some File =>
      if decide (p ∈ denied w) then Some (PermissionError (Path.str p))
      else None
  end.

Definition unlink (p : path) : M unit :=
  λ w, match unlink_error w p with
       | Some e => (Raised e, w)
       | None => (Done tt, emit (set_fs w (delete p (fs w))) (EUnlink p))
       end.

(** [shutil.rmtree(p)]: removes the directory [p] and all below it; raises
    when there is no directory at [p] or when the OS refuses.  A refusal
    half way through a tree is represented by a refusal at its root. *)
Definition rmtree_error (w : world) (p : path) : option exn :=
  match fs w !! p with
  | None => Some (FileNotFoundError (Path.str p))
  | Some File => Some (NotADirectoryError (Path.str p))
  | Some Dir =>
      if decide (p ∈ denied w) then Some (PermissionError (Path.str p))
      else None
  end.

Definition rmtree (p : path) : M unit :=
  λ w, match rmtree_error w p with
       | Some e => (Raised e, w)
       | None => (Done tt, emit (set_fs w (FS.remove_tree (fs w) p)) (ERmtree p))
       end.

(** [sys.exit(code)] *)
Definition sys_exit {A} (code : Z) : M A := raise (SystemExit code).

Section Subprocess.

(** The external tool: started in directory [cwd] on file system [fs], how
    it behaves and the file system it leaves. *)
Variable pixi : path → filesystem → behaviour * filesystem.

(** [subprocess.run(args, cwd=..., capture_output=..., text=...,
    timeout=..., check=...)].
    - no executable: [FileNotFoundError], nothing else happens;
    - the child outlives the timeout: it is killed, [TimeoutExpired];
    - [check] and a non-zero return code: [CalledProcessError];
    - no timeout and a child that never exits: the call never returns.
    The working directory is taken to exist: Variant A passes the parent of
    a manifest it has just globbed, Variant B a path it has just tested. *)
Definition subprocess_run (req : run_request) : M CompletedProcess :=
  λ w,
    let w0 := emit w (ESpawn req (fs w)) in
    match pixi (req_cwd req) (fs w) with
    | (NotInstalled, _) =>
        (Raised (FileNotFoundError (default "" (head (req_args req)))), w0)
    | (Terminates secs r, fs') =>
        let w1 := set_fs w0 fs' in
        if match req_timeout req with
           | Some t => bool_decide (t < secs)%nat
           | None => false
           end
        then (Raised (TimeoutExpired (req_args req)
                        (default 0%nat (req_timeout req))), w1)
        else if req_check req && negb (returncode r =? 0)%Z
        then (Raised (CalledProcessError (returncode r) (req_args req)
                        (stdout r) (stderr r)), w1)
        else (Done r, w1)
    | (Hangs, fs') =>
        let w1 := set_fs w0 fs' in
        match req_timeout req with
        | Some t => (Raised (TimeoutExpired (req_args req) t), w1)
        | None => (Hung, w1)
        end
    end.

End Subprocess.

(** ** The text of each message *)

Definition PIXI_TEST_DATA : string := "tests/data/pixi".

Definition nl : string := String "010"%char "".

Definition render (m : message) : string :=
  match m with
  | MsgFixturesDirNotFound d =>
      "❌ Test fixtures directory not found: " +:+ Path.str d
  | MsgNoFilesFound => "❌ No pyproject.toml files found"
  | MsgFound n => "✨ Found " +:+ pretty n +:+ " pyproject.toml files" +:+ nl
  | MsgProcessing name => "📝 Processing " +:+ name +:+ "..."
  | MsgLocation f => "   Location: " +:+ Path.str f
  | MsgLockExists => "   ⚠️  Lock file already exists, regenerating..."
  | MsgGenerating => "   🔒 Generating lock file..."
  | MsgGenerated => "   ✅ Lock file generated successfully" +:+ nl
  | MsgFailedToGenerate => "   ❌ Failed to generate lock file"
  | MsgError err => "   Error: " +:+ err +:+ nl
  | MsgTimeout => "   ⏱️  Timeout generating lock file" +:+ nl
  | MsgPixiNotFound => "   ❌ pixi command not found. Please install pixi first."
  | MsgVisit => "      Visit: https://pixi.sh" +:+ nl
  | MsgCleaningUp => nl +:+ "🧹 Cleaning up .pixi environment folders..." +:+ nl
  | MsgDeleted name => "   ✅ Deleted .pixi folder for " +:+ name
  | MsgFailedToDelete name e =>
      "   ❌ Failed to delete .pixi folder for " +:+ name +:+ ": " +:+ exn_str e
  | MsgNoPixiFolder name => "   ⏭️  No .pixi folder found for " +:+ name
  | MsgCleaned c f =>
      nl +:+ "   Cleaned: " +:+ pretty c +:+ ", Failed: " +:+ pretty f +:+ nl
  | MsgSearching =>
      "🔍 Searching for pyproject.toml files in " +:+ PIXI_TEST_DATA +:+ "/..."
        +:+ nl
  | MsgNothingToProcess => "❌ No pyproject.toml files found to process"
  | MsgAborted => nl +:+ "❌ Lock file generation aborted"
  | MsgRule => String.concat "" (replicate 60 "=")
  | MsgComplete => "✅ Lock file generation complete!"
  | MsgSuccess s => "   Success: " +:+ pretty s
  | MsgFailed f => "   Failed: " +:+ pretty f
  | MsgSomeFailed => nl +:+ "⚠️  Some lock files failed to generate"
  | MsgBDirNotFound d => "Directory not found: " +:+ Path.str d
  | MsgBGenerating name => nl +:+ "Generating pixi.lock for " +:+ name +:+ "..."
  | MsgBGenerated name => "✓ Successfully generated pixi.lock in " +:+ name
  | MsgBFailed name => "✗ Failed to generate pixi.lock in " +:+ name
  | MsgBError err => "Error: " +:+ err
  | MsgBPixiNotFound => "✗ pixi command not found. Please install pixi first:"
  | MsgBCurl => "  curl -fsSL https://pixi.sh/install.sh | bash"
  | MsgBAllGenerated => nl +:+ "✓ All pixi.lock files generated successfully!"
  end.

(** How a script run ends, as the shell sees it: a normal end is status 0,
    [sys.exit(c)] is status [c], any other uncaught exception is a traceback
    and status 1; a run that never ends has no status. *)
Definition exit_status {A} (o : outcome A) : option Z :=
  match o with
  | Done _ => Some 0%Z
  | Raised (SystemExit c) => Some c
  | Raised _ => Some 1%Z
  | Hung => None
  end.

(** ** Variant A: [scripts/generate-test-fixtures.py] *)

Module A.

(** The value [generate_lock_files] returns: [False], or the pair
    [(success_count, failed_count)]. *)
Inductive gen_result :=
| GenFalse
| GenCounts (success_count failed_count : nat).

(** One turn of the [for] loop either goes on with new counters or leaves
    the function with a [return]. *)
Inductive step :=
| Continue (success_count failed_count : nat)
| Return (r : gen_result).

(** The arguments of the one [subprocess.run] call. *)
Definition pixi_install (test_dir : path) : run_request :=
  {| req_args := ["pixi"; "install"];
     req_cwd := test_dir;
     req_capture_output := true;
     req_text := true;
     req_timeout := Some 300%nat;
     req_check := false |}.

Section WithTool.

Variable pixi : path → filesystem → behaviour * filesystem.

Definition find_pyproject_files (base_dir : path) : M (list path) :=
  let fixtures_dir := Path.join base_dir (Path.of_string PIXI_TEST_DATA) in
  e <- path_exists fixtures_dir ;;
  if negb e then
    print (MsgFixturesDirNotFound fixtures_dir) ;;
    ret []
  else
    λ w, (Done (FS.glob_children (fs w) fixtures_dir "pyproject.toml"), w).

(** The [try] statement in the loop of [generate_lock_files]. *)
Definition try_pixi_install (test_dir : path) (success_count failed_count : nat)
  : M step :=
  try_except
    (result <- subprocess_run pixi (pixi_install test_dir) ;;
     if (returncode result =? 0)%Z then
       print MsgGenerated ;;
       ret (Continue (S success_count) failed_count)
     else
       print MsgFailedToGenerate ;;
       print (MsgError (stderr result)) ;;
       ret (Continue success_count (S failed_count)))
    (λ e, match e with
          | TimeoutExpired _ _ =>
              Some (print MsgTimeout ;;
                    ret (Continue success_count (S failed_count)))
          | FileNotFoundError _ =>
              Some (print MsgPixiNotFound ;;
                    print MsgVisit ;;
                    ret (Return GenFalse))
          | _ => None
          end).

(** The body of the loop of [generate_lock_files]. *)
Definition process_fixture (toml_file : path) (success_count failed_count : nat)
  : M step :=
  let test_dir := Path.parent toml_file in
  let test_name := Path.name test_dir in
  print (MsgProcessing test_name) ;;
  print (MsgLocation toml_file) ;;
  let lock_file := test_dir /: "pixi.lock" in
  e <- path_exists lock_file ;;
  (if e then print MsgLockExists ;; unlink lock_file else ret tt) ;;
  print MsgGenerating ;;
  try_pixi_install test_dir success_count failed_count.

Fixpoint generate_loop (pyproject_files : list path)
  (success_count failed_count : nat) : M gen_result :=
  match pyproject_files with
  | [] => ret (GenCounts success_count failed_count)
  | toml_file :: rest =>
      s <- process_fixture toml_file success_count failed_count ;;
      match s with
      | Continue success_count' failed_count' =>
          generate_loop rest success_count' failed_count'
      | Return r => ret r
      end
  end.

Definition generate_lock_files (pyproject_files : list path) : M gen_result :=
  match pyproject_files with
  | [] =>
      print MsgNoFilesFound ;;
      ret GenFalse
  | _ =>
      print (MsgFound (length pyproject_files)) ;;
      generate_loop pyproject_files 0 0
  end.

(** The body of the loop of [cleanup_pixi_environments]. *)
Definition cleanup_fixture (toml_file : path) (cleaned_count failed_count : nat)
  : M (nat * nat) :=
  let test_dir := Path.parent toml_file in
  let test_name := Path.name test_dir in
  let pixi_dir := test_dir /: ".pixi" in
  e <- path_exists pixi_dir ;;
  if e then
    try_except
      (rmtree pixi_dir ;;
       print (MsgDeleted test_name) ;;
       ret (S cleaned_count, failed_count))
      (λ e, if is_Exception e then
              Some (print (MsgFailedToDelete test_name e) ;;
                    ret (cleaned_count, S failed_count))
            else None)
  else
    print (MsgNoPixiFolder test_name) ;;
    ret (cleaned_count, failed_count).

Fixpoint cleanup_loop (pyproject_files : list path)
  (cleaned_count failed_count : nat) : M (nat * nat) :=
  match pyproject_files with
  | [] => ret (cleaned_count, failed_count)
  | toml_file :: rest =>
      c <- cleanup_fixture toml_file cleaned_count failed_count ;;
      cleanup_loop rest c.1 c.2
  end.

Definition cleanup_pixi_environments (pyproject_files : list path)
  : M (nat * nat) :=
  print MsgCleaningUp ;;
  c <- cleanup_loop pyproject_files 0 0 ;;
  print (MsgCleaned c.1 c.2) ;;
  ret c.

(** [main()]; [script] is [__file__]. *)
Definition main (script : path) : M unit :=
  let script_dir := Path.parent script in
  let repo_root := Path.parent script_dir in
  print MsgSearching ;;
  pyproject_files <- find_pyproject_files repo_root ;;
  (match pyproject_files with
   | [] => print MsgNothingToProcess ;; sys_exit 1
   | _ => ret tt
   end) ;;
  result <- generate_lock_files pyproject_files ;;
  match result with
  | GenFalse =>
      print MsgAborted ;;
      sys_exit 1
  | GenCounts success_count failed_count =>
      (if bool_decide (0 < success_count)%nat then
         cleanup_pixi_environments pyproject_files ;; ret tt
       else ret tt) ;;
      print MsgRule ;;
      print MsgComplete ;;
      print (MsgSuccess success_count) ;;
      print (MsgFailed failed_count) ;;
      print MsgRule ;;
      if bool_decide (0 < failed_count)%nat then
        print MsgSomeFailed ;;
        sys_exit 1
      else ret tt
  end.

End WithTool.

End A.

(** ** Variant B: [tests/data/mkdocs-deploy/generate-pixi-locks.py] *)

Module B.

Definition PIXI_DIRS : list string :=
  [ "test-pull-request-pixi";
    "test-release-trigger-pixi";
    "test-package-manager-commands" ].

Definition pixi_install (dir_path : path) : run_request :=
  {| req_args := ["pixi"; "install"];
     req_cwd := dir_path;
     req_capture_output := true;
     req_text := true;
     req_timeout := None;
     req_check := true |}.

Section WithTool.

Variable pixi : path → filesystem → behaviour * filesystem.

(** The body of the loop of [main], after the existence test. *)
Definition generate (dir_path : path) (dir_name : string) : M unit :=
  print (MsgBGenerating dir_name) ;;
  try_except
    (result <- subprocess_run pixi (pixi_install dir_path) ;;
     print (MsgBGenerated dir_name))
    (λ e, match e with
          | CalledProcessError _ _ _ err =>
              Some (print (MsgBFailed dir_name) ;;
                    print (MsgBError err) ;;
                    sys_exit 1)
          | FileNotFoundError _ =>
              Some (print MsgBPixiNotFound ;;
                    print MsgBCurl ;;
                    sys_exit 1)
          | _ => None
          end).

Fixpoint main_loop (base_dir : path) (dirs : list string) : M unit :=
  match dirs with
  | [] => ret tt
  | dir_name :: rest =>
      let dir_path := base_dir /: dir_name in
      e <- path_exists dir_path ;;
      (if negb e then print (MsgBDirNotFound dir_path)
       else generate dir_path dir_name) ;;
      main_loop base_dir rest
  end.

(** [main()]; [script] is [__file__]. *)
Definition main (script : path) : M unit :=
  let base_dir := Path.parent script in
  main_loop base_dir PIXI_DIRS ;;
  print MsgBAllGenerated.

End WithTool.

End B.

(** ** Reading a run off the world *)

(** [emits w l]: the world [w] after the events [l]. *)
Definition emits (w : world) (l : list event) : world :=
  World (fs w) (denied w) (out w ++ l).

(** The events a computation started in [w] and ended in [w'] added. *)
Definition produced (w w' : world) : list event :=
  drop (length (out w)) (out w').

(** The classification of a fixture, as the scripts report it. *)
Inductive Outcome := Success | Failure | Timeout | ToolNotFound.

#[global] Instance Outcome_eq_dec : EqDecision Outcome.
Proof. solve_decision. Defined.

Definition outcome_of_event (e : event) : option Outcome :=
  match e with
  | EPrint MsgGenerated | EPrint (MsgBGenerated _) => Some Success
  | EPrint MsgFailedToGenerate | EPrint (MsgBFailed _) => Some Failure
  | EPrint MsgTimeout => Some Timeout
  | EPrint MsgPixiNotFound | EPrint MsgBPixiNotFound => Some ToolNotFound
  | _ => None
  end.

(** The outcomes reported in a stretch of output, in order. *)
Definition classification (l : list event) : list Outcome :=
  omap outcome_of_event l.

Definition is_spawn (e : event) : bool :=
  match e with ESpawn _ _ => true | _ => false end.

(** The events of the turns of Variant A's loop. *)
Definition is_turn_event (e : event) : bool :=
  match e with
  | EPrint (MsgProcessing _) | EPrint (MsgLocation _) | EPrint MsgLockExists
  | EPrint MsgGenerating | EPrint MsgGenerated | EPrint MsgFailedToGenerate
  | EPrint (MsgError _) | EPrint MsgTimeout | EPrint MsgPixiNotFound
  | EPrint MsgVisit | EUnlink _ | ESpawn _ _ => true
  | _ => false
  end.

Definition is_summary_event (e : event) : bool :=
  match e with
  | EPrint MsgRule | EPrint MsgComplete | EPrint (MsgSuccess _)
  | EPrint (MsgFailed _) | EPrint MsgSomeFailed => true
  | _ => false
  end.

Definition is_cleanup_event (e : event) : bool :=
  match e with
  | EPrint MsgCleaningUp | EPrint (MsgDeleted _) | EPrint (MsgFailedToDelete _ _)
  | EPrint (MsgNoPixiFolder _) | EPrint (MsgCleaned _ _) | ERmtree _ => true
  | _ => false
  end.

(** How many events of a kind a stretch of output holds. *)
Definition count_events (k : event → bool) (l : list event) : nat :=
  length (filter (λ e, k e = true) l).

Definition is_deleted_line (e : event) : bool :=
  match e with EPrint (MsgDeleted _) => true | _ => false end.

Definition is_delete_failed_line (e : event) : bool :=
  match e with EPrint (MsgFailedToDelete _ _) => true | _ => false end.

Definition is_skipped_line (e : event) : bool :=
  match e with EPrint (MsgNoPixiFolder _) => true | _ => false end.

(** Does the child outlive a wait of [t] seconds? *)
Definition outlives (t : nat) (b : behaviour) : Prop :=
  match b with
  | NotInstalled => False
  | Terminates secs _ => (t < secs)%nat
  | Hangs => True
  end.

Definition successes (l : list Outcome) : nat :=
  length (filter (λ o, o = Success) l).

Definition failures (l : list Outcome) : nat :=
  length (filter (λ o, o = Failure ∨ o = Timeout) l).

(** ** One turn of Variant A's loop, case by case

    The relations below restate [A.process_fixture] as the list of ways one
    turn can go; [process_fixture_run] proves that the function always takes
    one of them. *)

Definition lock_of (toml_file : path) : path :=
  Path.parent toml_file /: "pixi.lock".

Definition cache_of (toml_file : path) : path :=
  Path.parent toml_file /: ".pixi".

Definition header (toml_file : path) : list event :=
  [ EPrint (MsgProcessing (Path.name (Path.parent toml_file)));
    EPrint (MsgLocation toml_file) ].

(** Up to the call of [subprocess.run]: what was printed and done, and the
    file system the child starts on. *)
Inductive ready (t : path) (w : world) : list event → filesystem → Prop :=
| ready_no_lock :
    fs w !! lock_of t = None →
    ready t w (header t ++ [EPrint MsgGenerating]) (fs w)
| ready_unlinked :
    is_Some (fs w !! lock_of t) →
    unlink_error w (lock_of t) = None →
    ready t w
      (header t ++ [EPrint MsgLockExists; EUnlink (lock_of t); EPrint MsgGenerating])
      (delete (lock_of t) (fs w)).

(** From the call of [subprocess.run] on: the way the turn ends, what is
    printed, and the file system left. *)
Inductive spawned (pixi : path → filesystem → behaviour * filesystem)
  (d : path) (s f : nat) (fs1 : filesystem)
  : A.step → list event → filesystem → Prop :=
| spawned_not_installed :
    (pixi d fs1).1 = NotInstalled →
    spawned pixi d s f fs1 (A.Return A.GenFalse)
      [EPrint MsgPixiNotFound; EPrint MsgVisit] fs1
| spawned_success secs r :
    (pixi d fs1).1 = Terminates secs r →
    (secs ≤ 300)%nat → returncode r = 0%Z →
    spawned pixi d s f fs1 (A.Continue (S s) f)
      [EPrint MsgGenerated] (pixi d fs1).2
| spawned_failure secs r :
    (pixi d fs1).1 = Terminates secs r →
    (secs ≤ 300)%nat → returncode r ≠ 0%Z →
    spawned pixi d s f fs1 (A.Continue s (S f))
      [EPrint MsgFailedToGenerate; EPrint (MsgError (stderr r))] (pixi d fs1).2
| spawned_timeout :
    outlives 300 (pixi d fs1).1 →
    spawned pixi d s f fs1 (A.Continue s (S f))
      [EPrint MsgTimeout] (pixi d fs1).2.

Inductive fixture_run (pixi : path → filesystem → behaviour * filesystem)
  (t : path) (s f : nat) (w : world) : outcome A.step → world → Prop :=
| run_unlink_raises e :
    is_Some (fs w !! lock_of t) →
    unlink_error w (lock_of t) = Some e →
    fixture_run pixi t s f w (Raised e)
      (emits w (header t ++ [EPrint MsgLockExists]))
| run_spawned evs fs1 st tail fs2 :
    ready t w evs fs1 →
    spawned pixi (Path.parent t) s f fs1 st tail fs2 →
    fixture_run pixi t s f w (Done st)
      (World fs2 (denied w)
         (out w ++ evs ++ ESpawn (A.pixi_install (Path.parent t)) fs1 :: tail)).

(** The whole loop, turn after turn. *)
Inductive loop_run (pixi : path → filesystem → behaviour * filesystem)
  : list path → nat → nat → world → outcome A.gen_result → world → Prop :=
| loop_done s f w :
    loop_run pixi [] s f w (Done (A.GenCounts s f)) w
| loop_continue t rest s f w s' f' w1 o w' :
    fixture_run pixi t s f w (Done (A.Continue s' f')) w1 →
    loop_run pixi rest s' f' w1 o w' →
    loop_run pixi (t :: rest) s f w o w'
| loop_return t rest s f w r w1 :
    fixture_run pixi t s f w (Done (A.Return r)) w1 →
    loop_run pixi (t :: rest) s f w (Done r) w1
| loop_raise t rest s f w e w1 :
    fixture_run pixi t s f w (Raised e) w1 →
    loop_run pixi (t :: rest) s f w (Raised e) w1.

(** A stretch of output is the turn of fixture [t] when it opens with the
    two lines that announce [t]; the turn is complete when it reports
    exactly one outcome for [t], and that outcome is a success, a failure or
    a timeout. *)
Definition turn_of (t : path) (seg : list event) : Prop :=
  ∃ rest, seg = header t ++ rest.

Definition completed_turn (t : path) (seg : list event) : Prop :=
  turn_of t seg ∧
  ∃ oc, classification seg = [oc] ∧ oc ≠ ToolNotFound.

(** What [main] of Variant A finds, read off the world it starts in. *)
Definition fixtures_dir (script : path) : path :=
  Path.join (Path.parent (Path.parent script)) (Path.of_string PIXI_TEST_DATA).

Definition discovered (script : path) (w : world) : list path :=
  if FS.exists_ (fs w) (fixtures_dir script)
  then FS.glob_children (fs w) (fixtures_dir script) "pyproject.toml"
  else [].

(** The block [main] prints once the counts are known. *)
Definition summary (success_count failed_count : nat) : list event :=
  [ EPrint MsgRule; EPrint MsgComplete; EPrint (MsgSuccess success_count);
    EPrint (MsgFailed failed_count); EPrint MsgRule ].

(** The world [main] hands to the loop of [generate_lock_files]. *)
Definition loop_start (script : path) (w : world) : world :=
  emits w
    (EPrint MsgSearching ::
     (if FS.exists_ (fs w) (fixtures_dir script) then []
      else [EPrint (MsgFixturesDirNotFound (fixtures_dir script))]) ++
     [EPrint (MsgFound (length (discovered script w)))]).

(** ** Variant B's output, directory by directory *)

(** The turn of a listed directory that is attempted opens with the line
    that announces it. *)
Definition attempt_of (dir_name : string) (seg : list event) : Prop :=
  ∃ rest, seg = EPrint (MsgBGenerating dir_name) :: rest.

(** A turn the loop survives: the directory is missing and skipped, or it is
    attempted and reported as a success. *)
Definition passed_turn (base_dir : path) (dir_name : string)
  (seg : list event) : Prop :=
  seg = [EPrint (MsgBDirNotFound (base_dir /: dir_name))] ∨
  (attempt_of dir_name seg ∧ classification seg = [Success]).

(** ** Comparing two runs *)

(** The outcome that Variant A reports for a child that behaves as [b]. *)
Definition verdict (b : behaviour) : Outcome :=
  match b with
  | NotInstalled => ToolNotFound
  | Terminates secs r =>
      if bool_decide (300 < secs)%nat then Timeout
      else if (returncode r =? 0)%Z then Success else Failure
  | Hangs => Timeout
  end.

(** The error that removing [p] raises, if there is something at [p] and
    removing it raises. *)
Definition stale_error (den : gset path) (m : filesystem) (p : path)
  : option exn :=
  match m !! p with
  | Some _ => unlink_error (World m den []) p
  | None => None
  end.

(** Two file systems agree on which of the lock files [locks] raise when
    removed, and with what. *)
Definition same_stale (locks : path → Prop) (den : gset path)
  (m1 m2 : filesystem) : Prop :=
  ∀ p, locks p → stale_error den m1 p = stale_error den m2 p.

(** What each call of [subprocess.run] in a stretch of output found at the
    lock-file path of its working directory. *)
Definition spawn_locks (l : list event) : list (path * option node) :=
  omap (λ e, match e with
             | ESpawn req before =>
                 Some (req_cwd req, before !! (req_cwd req /: "pixi.lock"))
             | _ => None
             end) l.

Definition is_unlink (e : event) : bool :=
  match e with EUnlink _ => true | _ => false end.

(** ** Sample tools and worlds *)

Module Ex.

Definition script_A : path := ["repo"; "scripts"; "generate-test-fixtures.py"].

Definition script_B : path :=
  ["repo"; "tests"; "data"; "mkdocs-deploy"; "generate-pixi-locks.py"].

Definition root : path := ["repo"; "tests"; "data"; "pixi"].

Definition base_B : path := ["repo"; "tests"; "data"; "mkdocs-deploy"].

Definition toml (name : string) : path := root ++ [name; "pyproject.toml"].

Definition ok : CompletedProcess := Completed 0 "" "".

Definition failed : CompletedProcess :=
  Completed 1 "" "error: failed to solve the environment".

(** A tool that resolves in five seconds and leaves a lock file (unless
    something is in its place) and an environment directory. *)
Definition tool_ok (d : path) (m : filesystem) : behaviour * filesystem :=
  (Terminates 5 ok,
   <[d /: ".pixi" := Dir]>
     (match m !! (d /: "pixi.lock") with
      | None => <[d /: "pixi.lock" := File]> m
      | Some _ => m
      end)).

(** No [pixi] on the search path. *)
Definition tool_absent (d : path) (m : filesystem) : behaviour * filesystem :=
  (NotInstalled, m).

(** A tool that needs 301 seconds. *)
Definition tool_slow (d : path) (m : filesystem) : behaviour * filesystem :=
  (Terminates 301 ok, <[d /: ".pixi" := Dir]> m).

(** A tool that cannot solve any environment. *)
Definition tool_failing (d : path) (m : filesystem) : behaviour * filesystem :=
  (Terminates 2 failed, m).

(** A tool that fails in the directory [b] and succeeds elsewhere, and
    writes nothing. *)
Definition tool_by_name (d : path) (m : filesystem) : behaviour * filesystem :=
  (if decide (Path.name d = "b") then Terminates 2 failed else Terminates 5 ok,
   m).

(** A tool that fails on a cold cache, which it fills before it gives up,
    and succeeds on a warm one. *)
Definition tool_needs_cache (d : path) (m : filesystem)
  : behaviour * filesystem :=
  match m !! (d /: ".pixi") with
  | Some _ => (Terminates 5 ok, <[d /: "pixi.lock" := File]> m)
  | None => (Terminates 5 failed, <[d /: ".pixi" := Dir]> m)
  end.

Definition world_of (entries : list (path * node)) : world :=
  World (list_to_map entries) ∅ [].

(** Nothing on disk. *)
Definition w_empty : world := world_of [].

(** One fixture [a], no lock file, no environment. *)
Definition w_fresh : world :=
  world_of [ (root, Dir); (root /: "a", Dir); (toml "a", File) ].

(** One fixture [a] with a lock file. *)
Definition w_locked : world :=
  world_of [ (root, Dir); (root /: "a", Dir); (toml "a", File);
             (root /: "a" /: "pixi.lock", File) ].

(** One fixture [a] whose [pixi.lock] is a directory. *)
Definition w_lock_is_dir : world :=
  world_of [ (root, Dir); (root /: "a", Dir); (toml "a", File);
             (root /: "a" /: "pixi.lock", Dir) ].

(** Two fixtures, [a] and [b]; [b] has a lock file. *)
Definition w_two : world :=
  world_of [ (root, Dir); (root /: "a", Dir); (toml "a", File);
             (root /: "b", Dir); (toml "b", File);
             (root /: "b" /: "pixi.lock", File) ].

(** A fixture [a] whose [.pixi] is a regular file, and so cannot be removed
    as a tree. *)
Definition w_cache_is_file : world :=
  world_of [ (root, Dir); (root /: "a", Dir); (toml "a", File);
             (root /: "a" /: ".pixi", File) ].

(** Variant B: the first listed directory exists and holds a lock file. *)
Definition w_B_locked : world :=
  world_of [ (base_B, Dir);
             (base_B /: "test-pull-request-pixi", Dir);
             (base_B /: "test-pull-request-pixi" /: "pixi.lock", File) ].

(** Variant B: the first two listed directories exist. *)
Definition w_B_two : world :=
  world_of [ (base_B, Dir);
             (base_B /: "test-pull-request-pixi", Dir);
             (base_B /: "test-release-trigger-pixi", Dir) ].

End Ex.

(** Events can be compared, so that membership in a stretch of output can
    be decided by evaluation. *)
#[global] Instance exn_eq_dec : EqDecision exn.
Proof. solve_decision. Defined.

#[global] Instance CompletedProcess_eq_dec : EqDecision CompletedProcess.
Proof. solve_decision. Defined.

#[global] Instance run_request_eq_dec : EqDecision run_request.
Proof. solve_decision. Defined.

#[global] Instance message_eq_dec : EqDecision message.
Proof. solve_decision. Defined.

#[global] Instance event_eq_dec : EqDecision event.
Proof. solve_decision. Defined.

(** The working directories of the calls of [subprocess.run] in a stretch
    of output, in order. *)
Definition spawn_dirs (l : list event) : list path :=
  omap (λ e, match e with ESpawn req _ => Some (req_cwd req) | _ => None end) l.

Definition is_rmtree (e : event) : bool :=
  match e with ERmtree _ => true | _ => false end.

(** The events of Variant B's loop: nothing is deleted, and the closing
    line is not among them. *)
Definition B_event (e : event) : Prop :=
  is_unlink e = false ∧ is_rmtree e = false ∧ e ≠ EPrint MsgBAllGenerated.

(** Further sample inputs. *)
Module Ex2.

(** A tool that never returns. *)
Definition tool_hangs (d : path) (m : filesystem) : behaviour * filesystem :=
  (Hangs, m).

(** One fixture [a] with an environment directory and something in it. *)
Definition w_cached : world :=
  Ex.world_of
    [ (Ex.root, Dir); (Ex.root /: "a", Dir); (Ex.toml "a", File);
      (Ex.root /: "a" /: ".pixi", Dir);
      (Ex.root /: "a" /: ".pixi" /: "envs", Dir) ].

End Ex2.

(** * Properties *)

(** ** Worlds and output *)

Lemma produced_emits w l fs' den :
  produced w (World fs' den (out w ++ l)) = l.
Proof. unfold produced; simpl. by rewrite drop_app_length. Qed.

Lemma exists_is_Some (m : filesystem) p :
  FS.exists_ m p = true ↔ is_Some (m !! p).
Proof. unfold FS.exists_. by rewrite bool_decide_eq_true. Qed.

Lemma exists_None (m : filesystem) p :
  FS.exists_ m p = false ↔ m !! p = None.
Proof.
  unfold FS.exists_. rewrite bool_decide_eq_false, eq_None_not_Some. done.
Qed.

Lemma bind_Done {A B} (m : M A) (k : A → M B) w a w' :
  m w = (Done a, w') → bind m k w = k a w'.
Proof. intros H. unfold bind. by rewrite H. Qed.

Lemma bind_print {B} m (k : unit → M B) w :
  bind (print m) k w = k tt (emit w (EPrint m)).
Proof. done. Qed.

Lemma produced_refl w : produced w w = [].
Proof. unfold produced. by rewrite drop_all. Qed.

Lemma produced_app w l : produced w (emits w l) = l.
Proof. apply produced_emits. Qed.

(** Membership of a spawn event in a list of other events is absurd. *)
Ltac no_spawn H :=
  simpl in H;
  repeat (apply elem_of_cons in H as [H|H]; [discriminate H|]);
  by apply elem_of_nil in H.

(** ** One turn of the loop of [generate_lock_files] *)

Section VariantA.

Variable pixi : path → filesystem → behaviour * filesystem.

Lemma try_pixi_install_spawned d s f w :
  ∃ st tail fs2,
    spawned pixi d s f (fs w) st tail fs2 ∧
    A.try_pixi_install pixi d s f w =
      (Done st,
       World fs2 (denied w) (out w ++ ESpawn (A.pixi_install d) (fs w) :: tail)).
Proof.
  unfold A.try_pixi_install, try_except, bind, subprocess_run; simpl.
  destruct (pixi d (fs w)) as [b fs'] eqn:Hp.
  destruct b as [|secs r|]; simpl.
  - eexists _, _, _. split; [apply spawned_not_installed; by rewrite Hp|].
    unfold print, ret, emit; simpl. by rewrite <- !app_assoc.
  - case_bool_decide as Hs; simpl.
    + eexists _, _, _. split; [apply spawned_timeout; by rewrite Hp|].
      rewrite Hp. unfold print, ret, emit; simpl. by rewrite <- !app_assoc.
    + destruct (returncode r =? 0)%Z eqn:Hrc; simpl.
      * apply Z.eqb_eq in Hrc.
        eexists _, _, _. split.
        { eapply spawned_success; [by rewrite Hp|lia|done]. }
        rewrite Hp. unfold print, ret, emit; simpl. by rewrite <- !app_assoc.
      * apply Z.eqb_neq in Hrc.
        eexists _, _, _. split.
        { eapply spawned_failure; [by rewrite Hp|lia|done]. }
        rewrite Hp. unfold print, ret, emit; simpl. by rewrite <- !app_assoc.
  - eexists _, _, _. split; [apply spawned_timeout; by rewrite Hp|].
    rewrite Hp. unfold print, ret, emit; simpl. by rewrite <- !app_assoc.
Qed.

Lemma process_fixture_run t s f w :
  fixture_run pixi t s f w
    (A.process_fixture pixi t s f w).1 (A.process_fixture pixi t s f w).2.
Proof.
  unfold A.process_fixture, bind, print, path_exists, ret, unlink; simpl.
  fold (lock_of t).
  destruct (FS.exists_ (fs w) (lock_of t)) eqn:Hex; simpl.
  - apply exists_is_Some in Hex.
    destruct (unlink_error _ (lock_of t)) as [e|] eqn:Hun; simpl.
    + unfold unlink_error in Hun; simpl in Hun.
      replace (emit _ _) with (emits w (header t ++ [EPrint MsgLockExists])).
      { by constructor. }
      unfold emit, emits, header; simpl. by rewrite <- !app_assoc.
    + unfold unlink_error in Hun; simpl in Hun.
      match goal with |- context [A.try_pixi_install _ _ _ _ ?w1] =>
        destruct (try_pixi_install_spawned (Path.parent t) s f w1)
          as (st & tail & fs2 & Hsp & ->) end.
      simpl in *.
      pose proof (run_spawned pixi t s f w _ _ _ _ _
                    (ready_unlinked t w Hex Hun) Hsp) as H.
      revert H. unfold header. simpl. by rewrite <- !app_assoc.
  - apply exists_None in Hex.
    match goal with |- context [A.try_pixi_install _ _ _ _ ?w1] =>
      destruct (try_pixi_install_spawned (Path.parent t) s f w1)
        as (st & tail & fs2 & Hsp & ->) end.
    simpl in *.
    pose proof (run_spawned pixi t s f w _ _ _ _ _
                  (ready_no_lock t w Hex) Hsp) as H.
    revert H. unfold header. simpl. by rewrite <- !app_assoc.
Qed.

Lemma generate_loop_run files s f w :
  loop_run pixi files s f w
    (A.generate_loop pixi files s f w).1 (A.generate_loop pixi files s f w).2.
Proof.
  revert s f w. induction files as [|t rest IH]; intros s f w; simpl.
  - constructor.
  - unfold bind. pose proof (process_fixture_run t s f w) as Hb.
    destruct (A.process_fixture pixi t s f w) as [[[s' f'|r]|e|] w1]; simpl in *.
    + eapply loop_continue; [exact Hb|apply IH].
    + by apply loop_return.
    + by apply loop_raise.
    + inversion Hb.
Qed.

(** What one turn adds to the output, and what it leaves alone. *)
Lemma ready_lock_gone t w evs fs1 :
  ready t w evs fs1 → fs1 !! lock_of t = None.
Proof. intros [H|H1 H2]; [done|apply lookup_delete_eq]. Qed.

Lemma ready_no_spawn t w evs fs1 req before :
  ready t w evs fs1 → ESpawn req before ∉ evs.
Proof. intros [H|H1 H2] Hin; unfold header in Hin; no_spawn Hin. Qed.

Lemma spawned_no_spawn d s f fs1 st tail fs2 req before :
  spawned pixi d s f fs1 st tail fs2 → ESpawn req before ∉ tail.
Proof. intros [] Hin; no_spawn Hin. Qed.

Lemma fixture_run_out t s f w o w' :
  fixture_run pixi t s f w o w' →
  denied w' = denied w ∧ out w' = out w ++ produced w w'.
Proof.
  intros [e H1 H2|evs fs1 st tail fs2 H1 H2]; unfold emits;
    rewrite produced_emits; done.
Qed.

Lemma loop_run_out files s f w o w' :
  loop_run pixi files s f w o w' →
  denied w' = denied w ∧ out w' = out w ++ produced w w'.
Proof.
  induction 1 as [s f w|t rest s f w s' f' w1 o w' Hb Hl IH|
                  t rest s f w r w1 Hb|t rest s f w e w1 Hb].
  - rewrite produced_refl, app_nil_r. done.
  - apply fixture_run_out in Hb as [Hd1 Ho1]. destruct IH as [Hd2 Ho2].
    split; [congruence|].
    rewrite Ho2, Ho1, <- app_assoc. f_equal.
    unfold produced at 3. rewrite Ho2, Ho1, <- app_assoc.
    by rewrite drop_app_length.
  - by apply fixture_run_out in Hb.
  - by apply fixture_run_out in Hb.
Qed.

Lemma produced_trans w w1 w' :
  out w1 = out w ++ produced w w1 →
  out w' = out w1 ++ produced w1 w' →
  produced w w' = produced w w1 ++ produced w1 w'.
Proof.
  intros H1 H2. unfold produced at 1. rewrite H2, H1, <- app_assoc.
  by rewrite drop_app_length.
Qed.

(** The one call of [subprocess.run] in a turn. *)
Lemma fixture_run_spawn t s f w o w' req before :
  fixture_run pixi t s f w o w' →
  ESpawn req before ∈ produced w w' →
  req = A.pixi_install (Path.parent t) ∧
  ∃ evs st tail,
    ready t w evs before ∧
    spawned pixi (Path.parent t) s f before st tail (fs w') ∧
    o = Done st ∧
    produced w w' = evs ++ ESpawn req before :: tail.
Proof.
  intros [e H1 H2|evs fs1 st tail fs2 H1 H2] Hin.
  - unfold emits in Hin. rewrite produced_emits in Hin.
    unfold header in Hin. no_spawn Hin.
  - rewrite produced_emits in *.
    apply elem_of_app in Hin as [Hin|Hin].
    { by apply (ready_no_spawn _ _ _ _ _ _ H1) in Hin. }
    apply elem_of_cons in Hin as [Hin|Hin].
    2: { by apply (spawned_no_spawn _ _ _ _ _ _ _ _ _ H2) in Hin. }
    injection Hin as -> ->. split; [done|].
    by exists evs, st, tail.
Qed.

Lemma loop_run_spawn files s f w o w' req before :
  loop_run pixi files s f w o w' →
  ESpawn req before ∈ produced w w' →
  ∃ t, t ∈ files ∧ req = A.pixi_install (Path.parent t) ∧
       before !! lock_of t = None.
Proof.
  induction 1 as [s f w|t rest s f w s' f' w1 o w' Hb Hl IH|
                  t rest s f w r w1 Hb|t rest s f w e w1 Hb]; intros Hin.
  - rewrite produced_refl in Hin. by apply elem_of_nil in Hin.
  - rewrite (produced_trans w w1 w' (proj2 (fixture_run_out _ _ _ _ _ _ Hb))
               (proj2 (loop_run_out _ _ _ _ _ _ Hl))) in Hin.
    apply elem_of_app in Hin as [Hin|Hin].
    + destruct (fixture_run_spawn _ _ _ _ _ _ _ _ Hb Hin)
        as (-> & evs & st & tail & Hr & _).
      exists t. split_and!; [left|done|by eapply ready_lock_gone].
    + destruct (IH Hin) as (t' & Ht' & Hreq & Hlock).
      exists t'. split_and!; [by right|done|done].
  - destruct (fixture_run_spawn _ _ _ _ _ _ _ _ Hb Hin)
      as (-> & evs & st & tail & Hr & _).
    exists t. split_and!; [left|done|by eapply ready_lock_gone].
  - destruct (fixture_run_spawn _ _ _ _ _ _ _ _ Hb Hin)
      as (-> & evs & st & tail & Hr & _).
    exists t. split_and!; [left|done|by eapply ready_lock_gone].
Qed.

(** A call that finds no executable ends the loop. *)
Lemma spawned_not_installed_inv d s f fs1 st tail fs2 :
  spawned pixi d s f fs1 st tail fs2 →
  (pixi d fs1).1 = NotInstalled →
  st = A.Return A.GenFalse ∧ tail = [EPrint MsgPixiNotFound; EPrint MsgVisit] ∧
  fs2 = fs1.
Proof.
  intros [H|secs r H|secs r H|H] Hn; try done; rewrite Hn in H; done.
Qed.

Lemma loop_run_not_installed files s f w o w' req before :
  loop_run pixi files s f w o w' →
  ESpawn req before ∈ produced w w' →
  (pixi (req_cwd req) before).1 = NotInstalled →
  o = Done A.GenFalse ∧
  ∃ l, produced w w' =
       l ++ [ESpawn req before; EPrint MsgPixiNotFound; EPrint MsgVisit].
Proof.
  induction 1 as [s f w|t rest s f w s' f' w1 o w' Hb Hl IH|
                  t rest s f w r w1 Hb|t rest s f w e w1 Hb]; intros Hin Hn.
  - rewrite produced_refl in Hin. by apply elem_of_nil in Hin.
  - rewrite (produced_trans w w1 w' (proj2 (fixture_run_out _ _ _ _ _ _ Hb))
               (proj2 (loop_run_out _ _ _ _ _ _ Hl))) in *.
    apply elem_of_app in Hin as [Hin|Hin].
    + destruct (fixture_run_spawn _ _ _ _ _ _ _ _ Hb Hin)
        as (-> & evs & st & tail & Hr & Hsp & [= <-] & _).
      by apply spawned_not_installed_inv in Hsp as [? _].
    + destruct (IH Hin Hn) as (-> & l & ->).
      split; [done|]. exists (produced w w1 ++ l). by rewrite app_assoc.
  - destruct (fixture_run_spawn _ _ _ _ _ _ _ _ Hb Hin)
      as (-> & evs & st & tail & Hr & Hsp & [= <-] & ->).
    apply spawned_not_installed_inv in Hsp as ([= ->] & -> & _); [|done].
    split; [done|]. by exists evs.
  - by destruct (fixture_run_spawn _ _ _ _ _ _ _ _ Hb Hin)
      as (-> & evs & st & tail & Hr & Hsp & ? & _).
Qed.

(** The outcome a turn reports. *)
Lemma classification_app l1 l2 :
  classification (l1 ++ l2) = classification l1 ++ classification l2.
Proof. apply omap_app. Qed.

Lemma ready_turn t w evs fs1 :
  ready t w evs fs1 → classification evs = [] ∧ ∃ rest, evs = header t ++ rest.
Proof. intros [H|H1 H2]; (split; [done|by eexists]). Qed.

Lemma fixture_run_outcome t s f w o w' :
  fixture_run pixi t s f w o w' →
  turn_of t (produced w w') ∧
  match o with
  | Done (A.Continue s' f') =>
      (classification (produced w w') = [Success] ∧ s' = S s ∧ f' = f) ∨
      (classification (produced w w') = [Failure] ∧ s' = s ∧ f' = S f) ∨
      (classification (produced w w') = [Timeout] ∧ s' = s ∧ f' = S f)
  | Done (A.Return r) =>
      r = A.GenFalse ∧ classification (produced w w') = [ToolNotFound]
  | Raised e =>
      is_OSError e = true ∧
      produced w w' = header t ++ [EPrint MsgLockExists]
  | Hung => False
  end.
Proof.
  intros [e H1 H2|evs fs1 st tail fs2 H1 H2]; unfold emits;
    rewrite produced_emits.
  - split; [by eexists|]. split; [|done].
    unfold unlink_error in H2.
    destruct (fs w !! lock_of t) as [[]|]; [|by simplify_eq..].
    case_decide; by simplify_eq.
  - destruct (ready_turn _ _ _ _ H1) as [Hc [rest ->]].
    split; [rewrite <- app_assoc; by eexists|].
    rewrite classification_app, Hc. simpl.
    destruct H2; simpl; auto.
Qed.

Lemma completed_turns_classification files segs :
  Forall2 completed_turn files segs →
  length (classification (concat segs)) = length files ∧
  ToolNotFound ∉ classification (concat segs).
Proof.
  induction 1 as [|t seg files segs [_ (oc & Hc & Hoc)] _ [IH1 IH2]]; simpl.
  - split; [done|]. apply not_elem_of_nil.
  - rewrite classification_app, Hc. simpl. split; [by rewrite IH1|].
    intros [Heq|Hin]%elem_of_cons; [by subst|done].
Qed.

Lemma successes_cons oc l :
  successes (oc :: l) = ((if decide (oc = Success) then 1 else 0) + successes l)%nat.
Proof. unfold successes. rewrite filter_cons. by case_decide. Qed.

Lemma failures_cons oc l :
  failures (oc :: l) =
  ((if decide (oc = Failure ∨ oc = Timeout) then 1 else 0) + failures l)%nat.
Proof. unfold failures. rewrite filter_cons. by case_decide. Qed.

Lemma loop_run_segments files s f w o w' :
  loop_run pixi files s f w o w' →
  match o with
  | Done (A.GenCounts s' f') =>
      ∃ segs, produced w w' = concat segs ∧
              Forall2 completed_turn files segs ∧
              s' = (s + successes (classification (produced w w')))%nat ∧
              f' = (f + failures (classification (produced w w')))%nat
  | Done A.GenFalse =>
      ∃ pre t post segs last,
        files = pre ++ t :: post ∧
        produced w w' = concat segs ++ last ∧
        Forall2 completed_turn pre segs ∧
        turn_of t last ∧ classification last = [ToolNotFound]
  | Raised e =>
      ∃ pre t post segs,
        files = pre ++ t :: post ∧
        produced w w' = concat segs ++ header t ++ [EPrint MsgLockExists] ∧
        Forall2 completed_turn pre segs ∧
        is_OSError e = true
  | Hung => False
  end.
Proof.
  induction 1 as [s f w|t rest s f w s' f' w1 o w' Hb Hl IH|
                  t rest s f w r w1 Hb|t rest s f w e w1 Hb].
  - rewrite produced_refl. exists []. simpl.
    split_and!; [done|by apply Forall2_nil|unfold successes; simpl; lia|unfold failures; simpl; lia].
  - rewrite (produced_trans w w1 w' (proj2 (fixture_run_out _ _ _ _ _ _ Hb))
               (proj2 (loop_run_out _ _ _ _ _ _ Hl))).
    apply fixture_run_outcome in Hb as [Ht Hb].
    assert (completed_turn t (produced w w1)) as Hct.
    { split; [done|]. destruct Hb as [[-> _]|[[-> _]|[-> _]]]; by eexists. }
    destruct o as [[|s'' f'']|e|]; [| | |done].
    + destruct IH as (pre & t' & post & segs & last & -> & -> & HF & Hlast).
      exists (t :: pre), t', post, (produced w w1 :: segs), last.
      split_and!; [done|simpl; by rewrite <- app_assoc|by constructor|apply Hlast..].
    + destruct IH as (segs & Heq & HF & -> & ->).
      exists (produced w w1 :: segs). rewrite Heq.
      split_and!; [done|by constructor|..];
        rewrite <- Heq, classification_app;
        destruct Hb as [[-> [-> ->]]|[[-> [-> ->]]|[-> [-> ->]]]]; simpl;
        rewrite ?successes_cons, ?failures_cons;
        repeat (destruct (decide _) as [?|?]); try lia;
        exfalso; intuition congruence.
    + destruct IH as (pre & t' & post & segs & -> & -> & HF & He).
      exists (t :: pre), t', post, (produced w w1 :: segs).
      split_and!; [done|simpl; by rewrite <- app_assoc|by constructor|done].
  - apply fixture_run_outcome in Hb as [Ht [-> Hc]].
    exists [], t, rest, [], (produced w w1). by split_and!.
  - apply fixture_run_outcome in Hb as [Ht [He Hp]].
    exists [], t, rest, []. by split_and!.
Qed.

(** ** The cleaner *)

Lemma rmtree_error_Exception w p e :
  rmtree_error w p = Some e → is_Exception e = true.
Proof.
  unfold rmtree_error. destruct (fs w !! p) as [[]|]; [|case_decide|];
    intros; by simplify_eq.
Qed.

Lemma cleanup_fixture_skip t c f w :
  fs w !! cache_of t = None →
  A.cleanup_fixture t c f w =
    (Done (c, f), emits w [EPrint (MsgNoPixiFolder (Path.name (Path.parent t)))]).
Proof.
  intros H%exists_None. unfold A.cleanup_fixture, bind, path_exists.
  fold (cache_of t). by rewrite H.
Qed.

Lemma cleanup_fixture_fail t c f w e :
  is_Some (fs w !! cache_of t) →
  rmtree_error w (cache_of t) = Some e →
  A.cleanup_fixture t c f w =
    (Done (c, S f),
     emits w [EPrint (MsgFailedToDelete (Path.name (Path.parent t)) e)]).
Proof.
  intros H%exists_is_Some He.
  unfold A.cleanup_fixture, bind, path_exists, try_except, rmtree.
  fold (cache_of t). rewrite H, He.
  by rewrite (rmtree_error_Exception _ _ _ He).
Qed.

Lemma cleanup_fixture_delete t c f w :
  is_Some (fs w !! cache_of t) →
  rmtree_error w (cache_of t) = None →
  A.cleanup_fixture t c f w =
    (Done (S c, f),
     World (FS.remove_tree (fs w) (cache_of t)) (denied w)
       (out w ++ [ERmtree (cache_of t);
                  EPrint (MsgDeleted (Path.name (Path.parent t)))])).
Proof.
  intros H%exists_is_Some He.
  unfold A.cleanup_fixture, bind, path_exists, try_except, rmtree.
  fold (cache_of t). rewrite H, He. unfold print, ret, emit; simpl.
  by rewrite <- app_assoc.
Qed.

Lemma cleanup_fixture_total t c f w :
  ∃ c' f' w',
    A.cleanup_fixture t c f w = (Done (c', f'), w') ∧
    denied w' = denied w ∧
    out w' = out w ++ produced w w' ∧
    Forall (λ e, is_cleanup_event e = true) (produced w w').
Proof.
  destruct (fs w !! cache_of t) as [n|] eqn:Hc.
  - destruct (rmtree_error w (cache_of t)) as [e|] eqn:He.
    + eexists _, _, _. split; [by apply cleanup_fixture_fail|].
      rewrite produced_app. split_and!; [done..|]. by repeat constructor.
    + eexists _, _, _. split; [by apply cleanup_fixture_delete|].
      rewrite produced_emits. split_and!; [done..|]. by repeat constructor.
  - eexists _, _, _. split; [by apply cleanup_fixture_skip|].
    rewrite produced_app. split_and!; [done..|]. by repeat constructor.
Qed.

Lemma cleanup_loop_total files c f w :
  ∃ c' f' w',
    A.cleanup_loop files c f w = (Done (c', f'), w') ∧
    denied w' = denied w ∧
    out w' = out w ++ produced w w' ∧
    Forall (λ e, is_cleanup_event e = true) (produced w w').
Proof.
  revert c f w. induction files as [|t rest IH]; intros c f w; simpl.
  - eexists _, _, _. split; [done|]. rewrite produced_refl, app_nil_r.
    split_and!; [done..|]. constructor.
  - destruct (cleanup_fixture_total t c f w) as (c1 & f1 & w1 & E1 & D1 & O1 & F1).
    destruct (IH c1 f1 w1) as (c2 & f2 & w2 & E2 & D2 & O2 & F2).
    exists c2, f2, w2. unfold bind. rewrite E1. simpl. rewrite E2.
    split_and!; [done|congruence| |].
    + rewrite (produced_trans _ _ _ O1 O2), app_assoc. congruence.
    + rewrite (produced_trans _ _ _ O1 O2). by apply Forall_app.
Qed.

Lemma cleanup_total files w :
  ∃ c f w',
    A.cleanup_pixi_environments files w = (Done (c, f), w') ∧
    denied w' = denied w ∧
    out w' = out w ++ produced w w' ∧
    Forall (λ e, is_cleanup_event e = true) (produced w w') ∧
    EPrint MsgCleaningUp ∈ produced w w'.
Proof.
  unfold A.cleanup_pixi_environments, bind, print.
  destruct (cleanup_loop_total files 0 0 (emit w (EPrint MsgCleaningUp)))
    as (c & f & w1 & E & D & O & F).
  rewrite E. simpl. exists c, f, (emit w1 (EPrint (MsgCleaned c f))).
  split; [done|].
  assert (produced w (emit w1 (EPrint (MsgCleaned c f))) =
          EPrint MsgCleaningUp :: produced (emit w (EPrint MsgCleaningUp)) w1
            ++ [EPrint (MsgCleaned c f)]) as ->.
  { unfold produced at 1. simpl. rewrite O. simpl.
    rewrite <- !app_assoc. rewrite drop_app_length. done. }
  split_and!.
  - done.
  - simpl. rewrite O. simpl. by rewrite <- !app_assoc.
  - constructor; [done|]. apply Forall_app. split; [done|]. by repeat constructor.
  - left.
Qed.

Lemma cleanup_events_no_outcome l :
  Forall (λ e, is_cleanup_event e = true) l → classification l = [].
Proof.
  induction 1 as [|e l He _ IH]; [done|].
  change (e :: l) with ([e] ++ l).
  rewrite classification_app, IH, app_nil_r.
  by destruct e as [[]| | |].
Qed.

(** ** [main] *)

Lemma find_pyproject_files_eq script w :
  A.find_pyproject_files (Path.parent (Path.parent script)) w =
    (Done (discovered script w),
     emits w (if FS.exists_ (fs w) (fixtures_dir script) then []
              else [EPrint (MsgFixturesDirNotFound (fixtures_dir script))])).
Proof.
  unfold A.find_pyproject_files, discovered, bind, path_exists.
  fold (fixtures_dir script).
  destruct (FS.exists_ (fs w) (fixtures_dir script)); simpl.
  - unfold emits. rewrite app_nil_r. by destruct w.
  - done.
Qed.

Lemma main_nothing script w :
  discovered script w = [] →
  A.main pixi script w =
    (Raised (SystemExit 1),
     emits w
       (EPrint MsgSearching ::
        (if FS.exists_ (fs w) (fixtures_dir script) then []
         else [EPrint (MsgFixturesDirNotFound (fixtures_dir script))]) ++
        [EPrint MsgNothingToProcess])).
Proof.
  intros Hd. unfold A.main. cbv zeta. rewrite bind_print.
  rewrite (bind_Done _ _ _ _ _ (find_pyproject_files_eq script _)).
  change (discovered script (emit w _)) with (discovered script w).
  rewrite Hd. unfold bind, print, sys_exit, raise, emit, emits.
  simpl. by rewrite <- !app_assoc.
Qed.

Lemma main_run script w :
  discovered script w ≠ [] →
  let files := discovered script w in
  let r := A.generate_loop pixi files 0 0 (loop_start script w) in
  A.main pixi script w =
    match r.1 with
    | Done A.GenFalse => (Raised (SystemExit 1), emits r.2 [EPrint MsgAborted])
    | Done (A.GenCounts s f) =>
        let w3 := if bool_decide (0 < s)%nat
                  then (A.cleanup_pixi_environments files r.2).2 else r.2 in
        if bool_decide (0 < f)%nat
        then (Raised (SystemExit 1), emits w3 (summary s f ++ [EPrint MsgSomeFailed]))
        else (Done tt, emits w3 (summary s f))
    | Raised e => (Raised e, r.2)
    | Hung => (Hung, r.2)
    end.
Proof.
  intros Hd files r. subst files r.
  assert (loop_start script w =
          emit (emits (emit w (EPrint MsgSearching))
                  (if FS.exists_ (fs w) (fixtures_dir script) then []
                   else [EPrint (MsgFixturesDirNotFound (fixtures_dir script))]))
               (EPrint (MsgFound (length (discovered script w))))) as ->.
  { unfold loop_start, emit, emits. simpl. by rewrite <- !app_assoc. }
  unfold A.main. cbv zeta. rewrite bind_print.
  rewrite (bind_Done _ _ _ _ _ (find_pyproject_files_eq script _)).
  change (discovered script (emit w _)) with (discovered script w).
  change (fs (emit w _)) with (fs w).
  destruct (discovered script w) as [|t rest] eqn:Hf; [done|].
  unfold A.generate_lock_files.
  set (files := t :: rest).
  unfold bind at 2. unfold ret at 1.
  unfold bind at 1. unfold bind at 1. unfold print at 1.
  match goal with |- context [A.generate_loop pixi files 0 0 ?w1] =>
    destruct (A.generate_loop pixi files 0 0 w1) as [[[|s f]|e|] w2] end;
    simpl; [done| |done|done].
  assert (∃ w3, ((if bool_decide (0 < s)%nat
                  then A.cleanup_pixi_environments files;; ret ()
                  else ret ()) : M unit) w2 = (Done tt, w3) ∧
                w3 = if bool_decide (0 < s)%nat
                     then (A.cleanup_pixi_environments files w2).2 else w2)
    as (w3 & E & <-).
  { case_bool_decide; [|by eexists].
    destruct (cleanup_total files w2) as (c' & f' & w' & E & _).
    exists w'. unfold bind. rewrite E. done. }
  rewrite (bind_Done _ _ _ _ _ E). rewrite !bind_print.
  destruct (bool_decide (0 < f)%nat);
    unfold bind, print, sys_exit, raise, ret, emit, emits, summary;
    simpl; rewrite <- ?app_assoc; done.
Qed.

(** What [main] adds to the output around the loop. *)
Lemma generate_loop_out files s f w :
  out (A.generate_loop pixi files s f w).2 =
  out w ++ produced w (A.generate_loop pixi files s f w).2.
Proof. by eapply proj2, loop_run_out, generate_loop_run. Qed.

Lemma produced_loop_start script w :
  discovered script w ≠ [] →
  produced w (loop_start script w) =
    [EPrint MsgSearching; EPrint (MsgFound (length (discovered script w)))].
Proof.
  intros Hd. unfold loop_start. rewrite produced_app.
  unfold discovered in *. by destruct (FS.exists_ _ _).
Qed.

Lemma main_trace script w :
  discovered script w ≠ [] →
  let files := discovered script w in
  let r := A.generate_loop pixi files 0 0 (loop_start script w) in
  let m := A.main pixi script w in
  ∃ tail,
    produced w m.2 =
      [EPrint MsgSearching; EPrint (MsgFound (length files))]
        ++ produced (loop_start script w) r.2 ++ tail ∧
    classification tail = [] ∧
    (∀ req before, ESpawn req before ∉ tail) ∧
    match r.1 with
    | Done A.GenFalse =>
        m.1 = Raised (SystemExit 1) ∧ tail = [EPrint MsgAborted] ∧
        fs m.2 = fs r.2
    | Done (A.GenCounts s f) =>
        m.1 = (if bool_decide (0 < f)%nat then Raised (SystemExit 1) else Done tt) ∧
        ∃ cl, tail = cl ++ summary s f ++
                     (if bool_decide (0 < f)%nat then [EPrint MsgSomeFailed] else []) ∧
              Forall (λ e, is_cleanup_event e = true) cl ∧
              ((0 < s)%nat → EPrint MsgCleaningUp ∈ cl) ∧
              (¬ (0 < s)%nat → cl = [])
    | Raised e => m.1 = Raised e ∧ tail = [] ∧ m.2 = r.2
    | Hung => False
    end.
Proof.
  intros Hd files r m. subst m. rewrite (main_run script w Hd). cbv zeta.
  fold files. fold r.
  pose proof (generate_loop_out files 0 0 (loop_start script w)) as Ho.
  fold r in Ho.
  pose proof (loop_run_segments _ _ _ _ _ _
                (generate_loop_run files 0 0 (loop_start script w))) as Hs.
  fold r in Hs.
  assert (out (loop_start script w) =
          out w ++ [EPrint MsgSearching; EPrint (MsgFound (length files))]) as Hls.
  { subst files. rewrite <- (produced_loop_start script w Hd).
    unfold loop_start. by rewrite produced_app. }
  assert (∀ w' l, out w' = out r.2 ++ l →
            produced w w' =
              [EPrint MsgSearching; EPrint (MsgFound (length files))]
                ++ produced (loop_start script w) r.2 ++ l) as Hprod.
  { intros w' l Hw'. unfold produced at 1. rewrite Hw', Ho, Hls.
    rewrite <- !app_assoc. by rewrite drop_app_length. }
  destruct r.1 as [[|s f]|e|]; [| | |done].
  - exists [EPrint MsgAborted]. split_and!; [by apply Hprod|done| |done..].
    intros req before Hin. no_spawn Hin.
  - destruct (cleanup_total files r.2) as (c' & f' & w' & E & D & O & F & Hin).
    set (w3 := if bool_decide (0 < s)%nat
               then (A.cleanup_pixi_environments files r.2).2 else r.2).
    set (cl := if bool_decide (0 < s)%nat then produced r.2 w' else []).
    assert (out w3 = out r.2 ++ cl) as Hw3.
    { subst w3 cl. case_bool_decide; [by rewrite E|by rewrite app_nil_r]. }
    assert (Forall (λ e, is_cleanup_event e = true) cl) as Hcl.
    { subst cl. case_bool_decide; [done|constructor]. }
    exists (cl ++ summary s f ++
            (if bool_decide (0 < f)%nat then [EPrint MsgSomeFailed] else [])).
    split; [|split; [|split; [|split]]].
    + destruct (bool_decide (0 < f)%nat); simpl; apply Hprod; simpl;
        rewrite Hw3, <- ?app_assoc; simpl; by rewrite ?app_nil_r.
    + rewrite classification_app, (cleanup_events_no_outcome _ Hcl).
      by destruct (bool_decide (0 < f)%nat).
    + intros req before [Hi|Hi]%elem_of_app.
      * rewrite Forall_forall in Hcl. by apply Hcl in Hi.
      * destruct (bool_decide (0 < f)%nat); unfold summary in Hi; no_spawn Hi.
    + by destruct (bool_decide (0 < f)%nat).
    + exists cl. split_and!; [done|done| |]; subst cl; by case_bool_decide.
  - exists []. split_and!; [apply Hprod; by rewrite app_nil_r|done| |done..].
    intros req before Hin. by apply elem_of_nil in Hin.
Qed.

End VariantA.

(** ** Variant B *)

Section VariantB.

Variable pixi : path → filesystem → behaviour * filesystem.

Lemma generate_eq d name w :
  B.generate pixi d name w =
    let pre := [EPrint (MsgBGenerating name); ESpawn (B.pixi_install d) (fs w)] in
    match pixi d (fs w) with
    | (NotInstalled, _) =>
        (Raised (SystemExit 1),
         emits w (pre ++ [EPrint MsgBPixiNotFound; EPrint MsgBCurl]))
    | (Terminates secs r, fs') =>
        if (returncode r =? 0)%Z
        then (Done tt,
              World fs' (denied w) (out w ++ pre ++ [EPrint (MsgBGenerated name)]))
        else (Raised (SystemExit 1),
              World fs' (denied w)
                (out w ++ pre ++ [EPrint (MsgBFailed name);
                                  EPrint (MsgBError (stderr r))]))
    | (Hangs, fs') => (Hung, World fs' (denied w) (out w ++ pre))
    end.
Proof.
  unfold B.generate, try_except, bind, subprocess_run, print; simpl.
  destruct (pixi d (fs w)) as [[|secs r|] fs']; simpl.
  - unfold sys_exit, raise, emit, emits; simpl. by rewrite <- !app_assoc.
  - destruct (returncode r =? 0)%Z; simpl;
      unfold sys_exit, raise, emit, emits; simpl; by rewrite <- !app_assoc.
  - unfold emit; simpl. by rewrite <- !app_assoc.
Qed.

Lemma generate_cases d name w :
  let r := B.generate pixi d name w in
  denied r.2 = denied w ∧
  out r.2 = out w ++ produced w r.2 ∧
  attempt_of name (produced w r.2) ∧
  (∀ req before, ESpawn req before ∈ produced w r.2 →
     req = B.pixi_install d ∧ before = fs w) ∧
  match r.1 with
  | Done _ =>
      classification (produced w r.2) = [Success] ∧
      (pixi d (fs w)).1 ≠ NotInstalled
  | Raised e =>
      e = SystemExit 1 ∧
      ((classification (produced w r.2) = [Failure] ∧
        (pixi d (fs w)).1 ≠ NotInstalled) ∨
       (classification (produced w r.2) = [ToolNotFound] ∧
        (pixi d (fs w)).1 = NotInstalled ∧
        produced w r.2 =
          [EPrint (MsgBGenerating name); ESpawn (B.pixi_install d) (fs w);
           EPrint MsgBPixiNotFound; EPrint MsgBCurl]))
  | Hung =>
      classification (produced w r.2) = [] ∧ (pixi d (fs w)).1 = Hangs
  end.
Proof.
  cbv zeta. rewrite generate_eq. cbv zeta.
  assert (∀ l req before,
            ESpawn req before ∈
              [EPrint (MsgBGenerating name); ESpawn (B.pixi_install d) (fs w)] ++ l →
            ESpawn req before ∉ l →
            req = B.pixi_install d ∧ before = fs w) as Hsp.
  { intros l req before [Hin|Hin]%elem_of_app Hl; [|done].
    apply elem_of_cons in Hin as [Hin|Hin]; [done|].
    apply elem_of_cons in Hin as [Hin|Hin]; [by simplify_eq|].
    by apply elem_of_nil in Hin. }
  destruct (pixi d (fs w)) as [[|secs r|] fs']; simpl.
  - rewrite produced_app. split_and!; try done; [by eexists| |].
    + intros req before Hin. apply (Hsp _ _ _ Hin). intros H. no_spawn H.
    + right. done.
  - destruct (returncode r =? 0)%Z; simpl; rewrite produced_emits.
    + split_and!; try done; [by eexists|].
      intros req before Hin. apply (Hsp _ _ _ Hin). intros H. no_spawn H.
    + split_and!; try done; [by eexists| |by left].
      intros req before Hin. apply (Hsp _ _ _ Hin). intros H. no_spawn H.
  - rewrite produced_emits. split_and!; try done; [by eexists|].
    intros req before Hin. apply (Hsp [] _ _); [by rewrite app_nil_r|].
    apply not_elem_of_nil.
Qed.

Lemma main_loop_cons base d rest w :
  B.main_loop pixi base (d :: rest) w =
    if FS.exists_ (fs w) (base /: d) then
      match B.generate pixi (base /: d) d w with
      | (Done _, w1) => B.main_loop pixi base rest w1
      | (Raised e, w1) => (Raised e, w1)
      | (Hung, w1) => (Hung, w1)
      end
    else
      B.main_loop pixi base rest (emits w [EPrint (MsgBDirNotFound (base /: d))]).
Proof.
  simpl. unfold bind at 1. unfold path_exists.
  destruct (FS.exists_ (fs w) (base /: d)); simpl.
  - unfold bind. by destruct (B.generate pixi (base /: d) d w) as [[[]| |] w1].
  - done.
Qed.

Lemma main_loop_out base dirs w :
  denied (B.main_loop pixi base dirs w).2 = denied w ∧
  out (B.main_loop pixi base dirs w).2 =
    out w ++ produced w (B.main_loop pixi base dirs w).2.
Proof.
  revert w. induction dirs as [|d rest IH]; intros w.
  - simpl. by rewrite produced_refl, app_nil_r.
  - rewrite main_loop_cons.
    destruct (FS.exists_ (fs w) (base /: d)).
    + destruct (generate_cases (base /: d) d w) as (Hd & Ho & _).
      destruct (B.generate pixi (base /: d) d w) as [[[]| |] w1]; simpl in *;
        [|done..].
      destruct (IH w1) as [Hd1 Ho1]. split; [congruence|].
      rewrite (produced_trans _ _ _ Ho Ho1), app_assoc. congruence.
    + destruct (IH (emits w [EPrint (MsgBDirNotFound (base /: d))])) as [Hd1 Ho1].
      split; [done|].
      rewrite (produced_trans w (emits w [EPrint (MsgBDirNotFound (base /: d))]) _);
        [|by rewrite produced_app|done].
      rewrite produced_app in *. by rewrite Ho1, app_assoc.
Qed.

Lemma main_loop_segments base dirs w :
  let r := B.main_loop pixi base dirs w in
  ∃ segs,
    match r.1 with
    | Done _ =>
        produced w r.2 = concat segs ∧ Forall2 (passed_turn base) dirs segs
    | Raised e =>
        e = SystemExit 1 ∧
        ∃ pre d post last,
          dirs = pre ++ d :: post ∧
          produced w r.2 = concat segs ++ last ∧
          Forall2 (passed_turn base) pre segs ∧
          attempt_of d last ∧
          (classification last = [Failure] ∨ classification last = [ToolNotFound])
    | Hung =>
        ∃ pre d post last,
          dirs = pre ++ d :: post ∧
          produced w r.2 = concat segs ++ last ∧
          Forall2 (passed_turn base) pre segs ∧
          attempt_of d last ∧ classification last = []
    end.
Proof.
  revert w. induction dirs as [|d rest IH]; intros w; cbv zeta.
  - exists []. simpl. rewrite produced_refl. split; [done|by apply Forall2_nil].
  - rewrite main_loop_cons.
    destruct (FS.exists_ (fs w) (base /: d)).
    + destruct (generate_cases (base /: d) d w) as (Hd & Ho & Ha & _ & Hc).
      destruct (B.generate pixi (base /: d) d w) as [[[]|e|] w1]; simpl in *.
      * destruct (IH w1) as [segs Hs]. cbv zeta in Hs.
        destruct (main_loop_out base rest w1) as [_ Ho1].
        rewrite (produced_trans _ _ _ Ho Ho1).
        assert (passed_turn base d (produced w w1)) as Hp
          by (right; split; [done|apply Hc]).
        exists (produced w w1 :: segs).
        destruct (B.main_loop pixi base rest w1) as [[[]|e|] w2]; simpl in *.
        -- destruct Hs as [-> HF]. split; [done|by constructor].
        -- destruct Hs as (-> & pre & d' & post & last & -> & -> & HF & Hl).
           split; [done|]. exists (d :: pre), d', post, last.
           split_and!; [done|by rewrite <- app_assoc|by constructor|apply Hl..].
        -- destruct Hs as (pre & d' & post & last & -> & -> & HF & Hl).
           exists (d :: pre), d', post, last.
           split_and!; [done|by rewrite <- app_assoc|by constructor|apply Hl..].
      * exists []. destruct Hc as [-> Hc]. split; [done|].
        exists [], d, rest, (produced w w1).
        split_and!; [done|done|by apply Forall2_nil|done|].
        destruct Hc as [[? _]|[? _]]; auto.
      * exists []. exists [], d, rest, (produced w w1).
        split_and!; [done|done|by apply Forall2_nil|done|apply Hc].
    + set (w1 := emits w [EPrint (MsgBDirNotFound (base /: d))]).
      destruct (IH w1) as [segs Hs]. cbv zeta in Hs.
      destruct (main_loop_out base rest w1) as [_ Ho1].
      assert (out w1 = out w ++ produced w w1) as Ho
        by (subst w1; by rewrite produced_app).
      rewrite (produced_trans _ _ _ Ho Ho1).
      assert (passed_turn base d (produced w w1)) as Hp.
      { left. subst w1. by rewrite produced_app. }
      exists (produced w w1 :: segs).
      destruct (B.main_loop pixi base rest w1) as [[[]|e|] w2]; simpl in *.
      * destruct Hs as [-> HF]. split; [done|by constructor].
      * destruct Hs as (-> & pre & d' & post & last & -> & -> & HF & Hl).
        split; [done|]. exists (d :: pre), d', post, last.
        split_and!; [done|by rewrite <- app_assoc|by constructor|apply Hl..].
      * destruct Hs as (pre & d' & post & last & -> & -> & HF & Hl).
        exists (d :: pre), d', post, last.
        split_and!; [done|by rewrite <- app_assoc|by constructor|apply Hl..].
Qed.

Lemma main_loop_not_installed base dirs w req before :
  let r := B.main_loop pixi base dirs w in
  ESpawn req before ∈ produced w r.2 →
  (pixi (req_cwd req) before).1 = NotInstalled →
  r.1 = Raised (SystemExit 1) ∧
  ∃ l, produced w r.2 =
       l ++ [ESpawn req before; EPrint MsgBPixiNotFound; EPrint MsgBCurl].
Proof.
  revert w. induction dirs as [|d rest IH]; intros w; cbv zeta.
  - simpl. rewrite produced_refl. by intros ?%elem_of_nil.
  - rewrite main_loop_cons.
    destruct (FS.exists_ (fs w) (base /: d)).
    + destruct (generate_cases (base /: d) d w) as (Hd & Ho & Ha & Hsp & Hc).
      destruct (B.generate pixi (base /: d) d w) as [[[]|e|] w1]; simpl in *.
      * destruct (main_loop_out base rest w1) as [_ Ho1].
        rewrite (produced_trans _ _ _ Ho Ho1).
        intros [Hin|Hin]%elem_of_app Hn.
        -- destruct (Hsp _ _ Hin) as [-> ->]. simpl in Hn. by destruct Hc.
        -- destruct (IH w1 Hin Hn) as [-> [l ->]]. split; [done|].
           exists (produced w w1 ++ l). by rewrite app_assoc.
      * intros Hin Hn. destruct (Hsp _ _ Hin) as [-> ->]. simpl in Hn.
        destruct Hc as [-> [[_ Hc]|(_ & _ & ->)]]; [done|].
        split; [done|]. by exists [EPrint (MsgBGenerating d)].
      * intros Hin Hn. destruct (Hsp _ _ Hin) as [-> ->]. simpl in Hn.
        destruct Hc as [_ Hc]. congruence.
    + set (w1 := emits w [EPrint (MsgBDirNotFound (base /: d))]).
      destruct (main_loop_out base rest w1) as [_ Ho1].
      assert (out w1 = out w ++ produced w w1) as Ho
        by (subst w1; by rewrite produced_app).
      rewrite (produced_trans _ _ _ Ho Ho1).
      intros [Hin|Hin]%elem_of_app Hn.
      { subst w1. rewrite produced_app in Hin. no_spawn Hin. }
      destruct (IH w1 Hin Hn) as [-> [l ->]]. split; [done|].
      exists (produced w w1 ++ l). by rewrite app_assoc.
Qed.

End VariantB.

(** * The claims *)

Section Claims.

Variable pixi : path → filesystem → behaviour * filesystem.

Lemma generate_lock_files_nonempty files w :
  files ≠ [] →
  A.generate_lock_files pixi files w =
    A.generate_loop pixi files 0 0 (emits w [EPrint (MsgFound (length files))]).
Proof. intros H. unfold A.generate_lock_files. by destruct files. Qed.

Lemma generate_lock_files_spawn files w req before :
  ESpawn req before ∈ produced w (A.generate_lock_files pixi files w).2 →
  ∃ t, t ∈ files ∧ req = A.pixi_install (Path.parent t) ∧
       before !! lock_of t = None.
Proof.
  destruct (decide (files = [])) as [->|Hne].
  { simpl. unfold bind, print, ret. simpl.
    change (emit w ?e) with (emits w [e]). rewrite produced_app.
    intros Hin. no_spawn Hin. }
  rewrite generate_lock_files_nonempty by done.
  set (w1 := emits w [EPrint (MsgFound (length files))]).
  pose proof (generate_loop_run pixi files 0 0 w1) as Hl.
  rewrite (produced_trans w w1 _);
    [|subst w1; by rewrite produced_app|by eapply proj2, loop_run_out].
  intros [Hin|Hin]%elem_of_app.
  { subst w1. rewrite produced_app in Hin. no_spawn Hin. }
  by eapply loop_run_spawn.
Qed.


(** C6: in Variant A, when the fixtures root does not exist, the locator
    prints the error and returns the empty list, and [main] ends with status
    1 having printed three lines, touched nothing and started no process. *)
Theorem missing_fixtures_root_exits_1 script w :
  FS.exists_ (fs w) (fixtures_dir script) = false →
  A.find_pyproject_files (Path.parent (Path.parent script)) w =
    (Done [], emits w [EPrint (MsgFixturesDirNotFound (fixtures_dir script))]) ∧
  exit_status (A.main pixi script w).1 = Some 1%Z ∧
  fs (A.main pixi script w).2 = fs w ∧
  produced w (A.main pixi script w).2 =
    [ EPrint MsgSearching;
      EPrint (MsgFixturesDirNotFound (fixtures_dir script));
      EPrint MsgNothingToProcess ] ∧
  (∀ req before, ESpawn req before ∉ produced w (A.main pixi script w).2).
Proof.
  intros Hex.
  assert (discovered script w = []) as Hd by (unfold discovered; by rewrite Hex).
  split.
  { rewrite find_pyproject_files_eq, Hd. by rewrite Hex. }
  rewrite (main_nothing pixi script w Hd), Hex. simpl.
  rewrite produced_app. split_and!; try done.
  intros req before Hin. no_spawn Hin.
Qed.

Lemma generate_loop_cons t rest s f w :
  A.generate_loop pixi (t :: rest) s f w =
    match A.process_fixture pixi t s f w with
    | (Done (A.Continue s' f'), w1) => A.generate_loop pixi rest s' f' w1
    | (Done (A.Return r), w1) => (Done r, w1)
    | (Raised e, w1) => (Raised e, w1)
    | (Hung, w1) => (Hung, w1)
    end.
Proof.
  simpl. unfold bind.
  by destruct (A.process_fixture pixi t s f w) as [[[]| |] w1].
Qed.

Lemma generate_loop_app pre post s f w s1 f1 w1 :
  A.generate_loop pixi pre s f w = (Done (A.GenCounts s1 f1), w1) →
  A.generate_loop pixi (pre ++ post) s f w = A.generate_loop pixi post s1 f1 w1.
Proof.
  revert s f w. induction pre as [|t pre IH]; intros s f w.
  - simpl. unfold ret. by intros [= -> -> ->].
  - rewrite <- app_comm_cons, !generate_loop_cons.
    pose proof (fixture_run_outcome pixi _ _ _ _ _ _
                  (process_fixture_run pixi t s f w)) as [_ Hr].
    destruct (A.process_fixture pixi t s f w) as [[[s' f'|r]|e|] w']; try done.
    + apply IH.
    + simpl in Hr. destruct Hr as [-> _]. done.
Qed.

Lemma subprocess_run_timeout d w :
  outlives 300 (pixi d (fs w)).1 ↔
  ∃ cmd, (subprocess_run pixi (A.pixi_install d) w).1 =
         Raised (TimeoutExpired cmd 300).
Proof.
  unfold subprocess_run. simpl.
  destruct (pixi d (fs w)) as [[|secs r|] fs']; simpl.
  - split; [done|]. by intros [cmd ?].
  - case_bool_decide; simpl.
    + split; [by eexists|done].
    + split; [done|]. intros [cmd Hc]. by destruct (returncode r =? 0)%Z.
  - split; [by eexists|done].
Qed.

(** C7: in Variant A every call of [subprocess.run] is [pixi install] in a
    fixture's directory with [capture_output=True], [text=True] and
    [timeout=300]; the call raises [TimeoutExpired] exactly when the child
    outlives the 300 seconds; and a turn whose child outlives them prints
    the timeout notice as its only outcome, adds one to [failed_count] and
    nothing to [success_count], and the loop goes on with the next
    fixture. *)
Theorem tool_wait_bounded_300_A :
  (∀ files w req before,
     ESpawn req before ∈ produced w (A.generate_lock_files pixi files w).2 →
     req_args req = ["pixi"; "install"] ∧
     req_timeout req = Some 300%nat ∧
     req_capture_output req = true ∧ req_text req = true ∧
     ∃ t, t ∈ files ∧ req_cwd req = Path.parent t) ∧
  (∀ d w,
     outlives 300 (pixi d (fs w)).1 ↔
     ∃ cmd, (subprocess_run pixi (A.pixi_install d) w).1 =
            Raised (TimeoutExpired cmd 300)) ∧
  (∀ t rest s f w req before,
     ESpawn req before ∈ produced w (A.process_fixture pixi t s f w).2 →
     outlives 300 (pixi (req_cwd req) before).1 →
     (A.process_fixture pixi t s f w).1 = Done (A.Continue s (S f)) ∧
     classification (produced w (A.process_fixture pixi t s f w).2) = [Timeout] ∧
     (∃ l, produced w (A.process_fixture pixi t s f w).2 =
           l ++ [ESpawn req before; EPrint MsgTimeout]) ∧
     A.generate_loop pixi (t :: rest) s f w =
       A.generate_loop pixi rest s (S f) (A.process_fixture pixi t s f w).2).
Proof.
  split_and!.
  - intros files w req before Hin.
    destruct (generate_lock_files_spawn _ _ _ _ Hin) as (t & Ht & -> & Hl).
    split_and!; try done. by exists t.
  - apply subprocess_run_timeout.
  - intros t rest s f w req before Hin Hout.
    pose proof (process_fixture_run pixi t s f w) as Hrun.
    destruct (fixture_run_spawn pixi _ _ _ _ _ _ _ _ Hrun Hin)
      as (-> & evs & st & tail & Hr & Hsp & Ho & Hp).
    simpl in Hout.
    assert (st = A.Continue s (S f) ∧ tail = [EPrint MsgTimeout]) as [-> ->].
    { destruct Hsp as [Hn|secs r Ht Hle _|secs r Ht Hle _|_]; try done.
      - by rewrite Hn in Hout.
      - rewrite Ht in Hout. simpl in Hout. lia.
      - rewrite Ht in Hout. simpl in Hout. lia. }
    rewrite generate_loop_cons.
    destruct (A.process_fixture pixi t s f w) as [o w1]. simpl in *. subst o.
    split_and!; [done| |by exists evs|done].
    rewrite Hp, classification_app.
    by destruct (ready_turn _ _ _ _ Hr) as [-> _].
Qed.

(** C3: in either variant, when a call of [subprocess.run] finds no
    executable, [main] ends with status 1 and the output stops there: after
    the call come only the two lines that report the missing tool and say
    how to install it (and, in Variant A, the line that the run was
    aborted), so no later fixture is touched. *)
Theorem tool_not_found_aborts_run :
  (∀ script w req before,
     ESpawn req before ∈ produced w (A.main pixi script w).2 →
     (pixi (req_cwd req) before).1 = NotInstalled →
     exit_status (A.main pixi script w).1 = Some 1%Z ∧
     ∃ l, produced w (A.main pixi script w).2 =
          l ++ [ESpawn req before; EPrint MsgPixiNotFound; EPrint MsgVisit;
                EPrint MsgAborted]) ∧
  (∀ script w req before,
     ESpawn req before ∈ produced w (B.main pixi script w).2 →
     (pixi (req_cwd req) before).1 = NotInstalled →
     exit_status (B.main pixi script w).1 = Some 1%Z ∧
     ∃ l, produced w (B.main pixi script w).2 =
          l ++ [ESpawn req before; EPrint MsgBPixiNotFound; EPrint MsgBCurl]).
Proof.
  split.
  - intros script w req before Hin Hn.
    destruct (decide (discovered script w = [])) as [Hd|Hd].
    { rewrite (main_nothing pixi script w Hd) in Hin. cbn [snd] in Hin.
      rewrite produced_app in Hin.
      destruct (FS.exists_ _ _); no_spawn Hin. }
    destruct (main_trace pixi script w Hd) as (tail & Hp & _ & Hns & Hcase).
    rewrite Hp in Hin |- *.
    apply elem_of_app in Hin as [Hin|Hin]; [no_spawn Hin|].
    apply elem_of_app in Hin as [Hin|Hin]; [|by apply Hns in Hin].
    destruct (loop_run_not_installed pixi _ _ _ _ _ _ _ _
                (generate_loop_run pixi _ _ _ _) Hin Hn) as [Ho [l Hl]].
    rewrite Ho in Hcase. destruct Hcase as (-> & -> & _).
    split; [done|]. rewrite Hl.
    exists ([EPrint MsgSearching;
              EPrint (MsgFound (length (discovered script w)))] ++ l).
    by rewrite <- !app_assoc.
  - intros script w req before. unfold B.main. cbv zeta.
    generalize B.PIXI_DIRS. intros dirs. set (base := Path.parent script).
    pose proof (main_loop_not_installed pixi base dirs w req before) as H.
    destruct (main_loop_out pixi base dirs w) as [_ Ho].
    cbv zeta in H. unfold bind.
    destruct (B.main_loop pixi base dirs w) as [[[]|e|] w1];
      cbn [fst snd] in *.
    + intros Hin Hn.
      assert (produced w (emit w1 (EPrint MsgBAllGenerated)) =
              produced w w1 ++ [EPrint MsgBAllGenerated]) as Hp.
      { unfold produced at 1. simpl. rewrite Ho, <- app_assoc.
        by rewrite drop_app_length. }
      unfold print in Hin. cbn [fst snd] in Hin. rewrite Hp in Hin.
      apply elem_of_app in Hin as [Hin|Hin]; [|no_spawn Hin].
      by destruct (H Hin Hn).
    + intros Hin Hn. destruct (H Hin Hn) as [-> Hl]. done.
    + intros Hin Hn. by destruct (H Hin Hn).
Qed.

Lemma fixture_run_turn_events t s f w o w' :
  fixture_run pixi t s f w o w' →
  Forall (λ e, is_turn_event e = true) (produced w w').
Proof.
  intros [e H1 H2|evs fs1 st tail fs2 H1 H2]; unfold emits;
    rewrite produced_emits.
  - by repeat constructor.
  - apply Forall_app. split; [destruct H1; by repeat constructor|].
    constructor; [done|]. destruct H2; by repeat constructor.
Qed.

Lemma loop_run_turn_events files s f w o w' :
  loop_run pixi files s f w o w' →
  Forall (λ e, is_turn_event e = true) (produced w w').
Proof.
  induction 1 as [s f w|t rest s f w s' f' w1 o w' Hb Hl IH|
                  t rest s f w r w1 Hb|t rest s f w e w1 Hb].
  - rewrite produced_refl. constructor.
  - rewrite (produced_trans w w1 w' (proj2 (fixture_run_out _ _ _ _ _ _ _ Hb))
               (proj2 (loop_run_out _ _ _ _ _ _ _ Hl))).
    apply Forall_app. split; [by eapply fixture_run_turn_events|done].
  - by eapply fixture_run_turn_events.
  - by eapply fixture_run_turn_events.
Qed.

Lemma turn_event_not_summary e :
  is_turn_event e = true → is_summary_event e = false.
Proof. by destruct e as [[]| | |]. Qed.

Lemma turn_event_not_cleanup e :
  is_turn_event e = true → is_cleanup_event e = false.
Proof. by destruct e as [[]| | |]. Qed.

Lemma loop_run_no_summary files s f w o w' :
  loop_run pixi files s f w o w' →
  Forall (λ e, is_summary_event e = false) (produced w w').
Proof.
  intros H%loop_run_turn_events. eapply Forall_impl; [done|].
  apply turn_event_not_summary.
Qed.

Lemma process_fixture_unlink_raises t s f w e :
  is_Some (fs w !! lock_of t) →
  unlink_error w (lock_of t) = Some e →
  A.process_fixture pixi t s f w =
    (Raised e, emits w (header t ++ [EPrint MsgLockExists])).
Proof.
  intros Hl He. pose proof (process_fixture_run pixi t s f w) as Hrun.
  destruct (A.process_fixture pixi t s f w) as [o w1]. simpl in Hrun.
  inversion Hrun as [e' H1 H2|evs fs1 st tail fs2 H1 H2]; subst.
  - congruence.
  - destruct H1 as [Hn|_ Hn]; [|congruence].
    rewrite Hn in Hl. by destruct Hl.
Qed.

Lemma unlink_error_OSError w p e :
  unlink_error w p = Some e → is_OSError e = true.
Proof.
  unfold unlink_error. destruct (fs w !! p) as [[]|]; [case_decide| |];
    intros; by simplify_eq.
Qed.

(** [main] when the loop has come through the fixtures [pre] and is about
    to process [t]. *)
Lemma main_at script w0 pre t post s f w :
  discovered script w0 = pre ++ t :: post →
  A.generate_loop pixi pre 0 0 (loop_start script w0) =
    (Done (A.GenCounts s f), w) →
  A.generate_loop pixi (discovered script w0) 0 0 (loop_start script w0) =
    A.generate_loop pixi (t :: post) s f w ∧
  out w = out w0 ++ produced w0 w ∧
  Forall (λ e, is_summary_event e = false) (produced w0 w).
Proof.
  intros Hd Hpre. rewrite Hd. split; [by apply generate_loop_app|].
  assert (discovered script w0 ≠ []) as Hne by (rewrite Hd; by destruct pre).
  pose proof (generate_loop_run pixi pre 0 0 (loop_start script w0)) as Hl.
  rewrite Hpre in Hl. simpl in Hl.
  assert (out (loop_start script w0) =
          out w0 ++ produced w0 (loop_start script w0)) as Ho.
  { unfold loop_start. by rewrite produced_app. }
  split.
  - rewrite (produced_trans _ _ _ Ho (proj2 (loop_run_out _ _ _ _ _ _ _ Hl))).
    rewrite app_assoc, <- Ho. by eapply proj2, loop_run_out.
  - rewrite (produced_trans _ _ _ Ho (proj2 (loop_run_out _ _ _ _ _ _ _ Hl))).
    apply Forall_app. split; [|by eapply loop_run_no_summary].
    rewrite produced_loop_start by done. by repeat constructor.
Qed.

(** C10: in Variant A the removal of a stale lock file is not guarded.  When
    [unlink] raises for the lock file of a fixture, the error is an
    [OSError]; the turn ends with that exception having printed only the
    three lines up to "Lock file already exists", none of them an outcome;
    the exception leaves the loop, [generate_lock_files] and [main]
    uncaught, whatever fixtures come before and after; and nothing of the
    final summary is in the output. *)
Theorem unlink_error_escapes_A script w0 pre t post s f w e :
  discovered script w0 = pre ++ t :: post →
  A.generate_loop pixi pre 0 0 (loop_start script w0) =
    (Done (A.GenCounts s f), w) →
  is_Some (fs w !! lock_of t) →
  unlink_error w (lock_of t) = Some e →
  is_OSError e = true ∧
  A.process_fixture pixi t s f w =
    (Raised e, emits w (header t ++ [EPrint MsgLockExists])) ∧
  classification (header t ++ [EPrint MsgLockExists]) = [] ∧
  (A.generate_lock_files pixi (pre ++ t :: post)
     (emits w0 [EPrint MsgSearching])).1 = Raised e ∧
  A.main pixi script w0 =
    (Raised e, emits w (header t ++ [EPrint MsgLockExists])) ∧
  Forall (λ ev, is_summary_event ev = false)
    (produced w0 (A.main pixi script w0).2).
Proof.
  intros Hd Hpre Hlock He.
  pose proof (process_fixture_unlink_raises t s f w e Hlock He) as Hbody.
  destruct (main_at script w0 pre t post s f w Hd Hpre) as (Hloop & Ho & Hns).
  assert (discovered script w0 ≠ []) as Hne by (rewrite Hd; by destruct pre).
  rewrite generate_loop_cons, Hbody in Hloop.
  assert (A.main pixi script w0 =
          (Raised e, emits w (header t ++ [EPrint MsgLockExists]))) as Hmain.
  { rewrite (main_run pixi script w0 Hne). cbv zeta. by rewrite Hloop. }
  split_and!.
  - by eapply unlink_error_OSError.
  - done.
  - done.
  - rewrite generate_lock_files_nonempty by (by destruct pre).
    assert (emits (emits w0 [EPrint MsgSearching])
              [EPrint (MsgFound (length (pre ++ t :: post)))]
            = loop_start script w0) as ->.
    { unfold loop_start, emits. simpl. rewrite <- app_assoc. simpl.
      rewrite Hd. unfold discovered in Hne.
      by destruct (FS.exists_ (fs w0) (fixtures_dir script)). }
    rewrite <- Hd. by rewrite Hloop.
  - done.
  - rewrite Hmain. cbn [snd].
    assert (produced w0 (emits w (header t ++ [EPrint MsgLockExists])) =
            produced w0 w ++ header t ++ [EPrint MsgLockExists]) as ->.
    { unfold produced at 1. simpl. rewrite Ho, <- app_assoc.
      by rewrite drop_app_length. }
    apply Forall_app. split; [done|]. by repeat constructor.
Qed.

Lemma process_fixture_not_installed t s f w :
  fs w !! lock_of t = Some File →
  lock_of t ∉ denied w →
  (pixi (Path.parent t) (delete (lock_of t) (fs w))).1 = NotInstalled →
  A.process_fixture pixi t s f w =
    (Done (A.Return A.GenFalse),
     World (delete (lock_of t) (fs w)) (denied w)
       (out w ++ header t ++
        [ EPrint MsgLockExists; EUnlink (lock_of t); EPrint MsgGenerating;
          ESpawn (A.pixi_install (Path.parent t)) (delete (lock_of t) (fs w));
          EPrint MsgPixiNotFound; EPrint MsgVisit ])).
Proof.
  intros Hl Hd Hn. pose proof (process_fixture_run pixi t s f w) as Hrun.
  assert (unlink_error w (lock_of t) = None) as Hu.
  { unfold unlink_error. rewrite Hl. by case_decide. }
  destruct (A.process_fixture pixi t s f w) as [o w1]. simpl in Hrun.
  inversion Hrun as [e' H1 H2|evs fs1 st tail fs2 H1 H2]; subst.
  - congruence.
  - destruct H1 as [Hnone|_ _]; [congruence|].
    apply spawned_not_installed_inv in H2 as (-> & -> & ->); [|done].
    by rewrite <- !app_assoc.
Qed.

(** C9: in Variant A a missing executable is noticed only after the stale
    lock file is gone.  In a turn that begins with a removable [pixi.lock]
    and whose call finds no executable, the file has been unlinked before
    the call and is absent from the file system the turn leaves; [main] then
    ends with status 1 on exactly that file system, so the lock file is
    neither restored nor regenerated. *)
Theorem tool_missing_leaves_lock_deleted_A script w0 pre t post s f w :
  discovered script w0 = pre ++ t :: post →
  A.generate_loop pixi pre 0 0 (loop_start script w0) =
    (Done (A.GenCounts s f), w) →
  fs w !! lock_of t = Some File →
  lock_of t ∉ denied w →
  (pixi (Path.parent t) (delete (lock_of t) (fs w))).1 = NotInstalled →
  (∃ l1 l2 l3,
     produced w (A.process_fixture pixi t s f w).2 =
       l1 ++ EUnlink (lock_of t) ::
       l2 ++ ESpawn (A.pixi_install (Path.parent t)) (delete (lock_of t) (fs w)) ::
       l3) ∧
  exit_status (A.main pixi script w0).1 = Some 1%Z ∧
  fs (A.main pixi script w0).2 = delete (lock_of t) (fs w) ∧
  fs (A.main pixi script w0).2 !! lock_of t = None.
Proof.
  intros Hd Hpre Hl Hden Hn.
  pose proof (process_fixture_not_installed t s f w Hl Hden Hn) as Hbody.
  destruct (main_at script w0 pre t post s f w Hd Hpre) as (Hloop & Ho & Hns).
  assert (discovered script w0 ≠ []) as Hne by (rewrite Hd; by destruct pre).
  rewrite generate_loop_cons, Hbody in Hloop.
  rewrite (main_run pixi script w0 Hne). cbv zeta. rewrite Hloop, Hbody.
  cbn [fst snd]. rewrite produced_emits.
  split_and!; [|done|done|apply lookup_delete_eq].
  exists (header t ++ [EPrint MsgLockExists]), [EPrint MsgGenerating],
         [EPrint MsgPixiNotFound; EPrint MsgVisit].
  by rewrite <- !app_assoc.
Qed.

(** Counting outcomes. *)
Lemma successes_pos l : (0 < successes l)%nat → Success ∈ l.
Proof.
  induction l as [|oc l IH]; [unfold successes; simpl; lia|].
  rewrite successes_cons. destruct (decide (oc = Success)) as [->|_].
  - intros _. left.
  - intros H. right. apply IH. lia.
Qed.

Lemma failures_replicate n : failures (replicate n Success) = 0%nat.
Proof.
  induction n as [|n IH]; [done|]. simpl. rewrite failures_cons, IH.
  destruct (decide _) as [[?|?]|?]; done.
Qed.

Lemma failures_zero l :
  ToolNotFound ∉ l → failures l = 0%nat → l = replicate (length l) Success.
Proof.
  induction l as [|oc l IH]; [done|].
  rewrite failures_cons, not_elem_of_cons. intros [Hoc Hl] Hf. simpl.
  destruct (decide _) as [H|H]; [lia|].
  rewrite <- IH by (done || lia).
  destruct oc; try done; exfalso; apply H; auto.
Qed.

Lemma passed_turns_classification base dirs segs :
  Forall2 (passed_turn base) dirs segs →
  Forall (eq Success) (classification (concat segs)).
Proof.
  induction 1 as [|d seg dirs segs Hp _ IH]; simpl; [constructor|].
  rewrite classification_app. apply Forall_app. split; [|done].
  destruct Hp as [->|[_ ->]]; by repeat constructor.
Qed.


Lemma count_events_app k l1 l2 :
  count_events k (l1 ++ l2) = (count_events k l1 + count_events k l2)%nat.
Proof. unfold count_events. by rewrite filter_app, length_app. Qed.

Lemma cleanup_loop_counts files c f w :
  let r := A.cleanup_loop files c f w in
  ∃ c' f',
    r.1 = Done (c', f') ∧
    c' = (c + count_events is_deleted_line (produced w r.2))%nat ∧
    f' = (f + count_events is_delete_failed_line (produced w r.2))%nat ∧
    (count_events is_deleted_line (produced w r.2) +
     count_events is_delete_failed_line (produced w r.2) +
     count_events is_skipped_line (produced w r.2))%nat = length files.
Proof.
  revert c f w. induction files as [|t rest IH]; intros c f w; cbv zeta.
  - simpl. rewrite produced_refl. exists c, f. unfold count_events. simpl.
    split_and!; (done || lia).
  - destruct (cleanup_fixture_total t c f w) as (c1 & f1 & w1 & E1 & _ & O1 & _).
    destruct (cleanup_loop_total rest c1 f1 w1) as (c2 & f2 & w2 & E2 & _ & O2 & _).
    destruct (IH c1 f1 w1) as (c2' & f2' & Hr & Hc & Hf & Hn). cbv zeta in *.
    rewrite E2 in Hr, Hc, Hf, Hn. cbn [fst snd] in *. simplify_eq.
    assert (A.cleanup_loop (t :: rest) c f w =
            (Done ((c1 + count_events is_deleted_line (produced w1 w2))%nat,
                   (f1 + count_events is_delete_failed_line (produced w1 w2))%nat),
             w2)) as ->.
    { simpl. unfold bind. rewrite E1. simpl. by rewrite E2. }
    cbn [fst snd]. rewrite (produced_trans _ _ _ O1 O2), !count_events_app.
    eexists _, _. split; [done|].
    assert (c1 = (c + count_events is_deleted_line (produced w w1))%nat ∧
            f1 = (f + count_events is_delete_failed_line (produced w w1))%nat ∧
            (count_events is_deleted_line (produced w w1) +
             count_events is_delete_failed_line (produced w w1) +
             count_events is_skipped_line (produced w w1))%nat = 1%nat)
      as (-> & -> & H1).
    { destruct (fs w !! cache_of t) as [n|] eqn:Hc.
      - destruct (rmtree_error w (cache_of t)) as [e|] eqn:He.
        + rewrite (cleanup_fixture_fail _ _ _ _ e) in E1 by done. simplify_eq.
          rewrite produced_app. unfold count_events. simpl.
          split_and!; lia.
        + rewrite cleanup_fixture_delete in E1 by done. simplify_eq.
          rewrite produced_emits. unfold count_events. simpl.
          split_and!; lia.
      - rewrite cleanup_fixture_skip in E1 by done. simplify_eq.
        rewrite produced_app. unfold count_events. simpl.
        split_and!; lia. }
    simpl. split_and!; lia.
Qed.


Lemma main_loop_all_missing base dirs w :
  (∀ d, d ∈ dirs → fs w !! (base /: d) = None) →
  B.main_loop pixi base dirs w =
    (Done tt, emits w (map (λ d, EPrint (MsgBDirNotFound (base /: d))) dirs)).
Proof.
  revert w. induction dirs as [|d rest IH]; intros w Hm.
  - simpl. unfold ret, emits. rewrite app_nil_r. by destruct w.
  - rewrite main_loop_cons.
    assert (FS.exists_ (fs w) (base /: d) = false) as ->.
    { apply exists_None, Hm. left. }
    rewrite IH.
    + unfold emits. simpl. by rewrite <- app_assoc.
    + intros d' Hd'. simpl. apply Hm. by right.
Qed.


(** ** Two runs in succession *)

Lemma relative_to_Some d p r : Path.relative_to d p = Some r → p = d ++ r.
Proof.
  revert p. induction d as [|x d IH]; intros [|y p]; simpl; try done.
  - by intros [= ->].
  - by intros [= ->].
  - case_decide; [|done]. intros Hr%IH. by subst.
Qed.

Lemma glob_children_shape m dir name p :
  p ∈ FS.glob_children m dir name → ∃ x, p = dir ++ [x; name].
Proof.
  unfold FS.glob_children. intros [Hp _]%list_elem_of_filter.
  unfold FS.glob_pattern in Hp.
  destruct (Path.relative_to dir p) as [[|x [|n [|]]]|] eqn:Hr; try done.
  apply bool_decide_eq_true in Hp as ->. apply relative_to_Some in Hr.
  by exists x.
Qed.

Lemma discovered_shape script w t :
  t ∈ discovered script w →
  ∃ x, t = fixtures_dir script ++ [x; "pyproject.toml"].
Proof.
  unfold discovered. destruct (FS.exists_ _ _).
  - apply glob_children_shape.
  - by intros ?%elem_of_nil.
Qed.

Lemma parent_app2 d x n : Path.parent (d ++ [x; n]) = d ++ [x].
Proof.
  unfold Path.parent. change [x; n] with ([x] ++ [n]).
  by rewrite app_assoc, removelast_last.
Qed.

Lemma cache_not_above_lock d x y :
  Path.under (d ++ [x; ".pixi"]) (d ++ [y; "pixi.lock"]) = false.
Proof.
  unfold Path.under. apply bool_decide_eq_false.
  induction d as [|z d IH]; simpl.
  - case_decide; [|by intros []]. simpl. by intros [].
  - by rewrite decide_True.
Qed.

Lemma stale_error_delete den m p q :
  stale_error den m p = None →
  stale_error den (delete p m) q = stale_error den m q.
Proof.
  unfold stale_error, unlink_error. simpl. intros Hp.
  destruct (decide (p = q)) as [->|Hne].
  - rewrite lookup_delete_eq. by rewrite Hp.
  - by rewrite lookup_delete_ne.
Qed.

Lemma stale_error_unlink w p :
  stale_error (denied w) (fs w) p =
  match fs w !! p with Some _ => unlink_error w p | None => None end.
Proof. unfold stale_error, unlink_error. simpl. done. Qed.

Section TwoRuns.

(** The lock files the comparison is about, and the two assumptions on the
    tool: what it reports in a directory does not depend on the file system
    it is started on, and it does not change whether removing one of these
    lock files raises. *)
Variable locks : path → Prop.
Variable den : gset path.
Hypothesis state_blind :
  ∀ d m1 m2, verdict (pixi d m1).1 = verdict (pixi d m2).1.
Hypothesis keeps_stale :
  ∀ d m p, locks p → stale_error den (pixi d m).2 p = stale_error den m p.

Lemma spawned_by_verdict d s f fs1 st tail fs2 :
  spawned pixi d s f fs1 st tail fs2 →
  classification tail = [verdict (pixi d fs1).1] ∧
  st = match verdict (pixi d fs1).1 with
       | Success => A.Continue (S s) f
       | ToolNotFound => A.Return A.GenFalse
       | _ => A.Continue s (S f)
       end ∧
  (fs2 = fs1 ∨ fs2 = (pixi d fs1).2).
Proof.
  intros [Hn|secs r Ht Hle Hrc|secs r Ht Hle Hrc|Ho].
  - rewrite Hn. simpl. auto.
  - rewrite Ht. simpl. rewrite bool_decide_false by lia.
    apply Z.eqb_eq in Hrc. rewrite Hrc. auto.
  - rewrite Ht. simpl. rewrite bool_decide_false by lia.
    apply Z.eqb_neq in Hrc. rewrite Hrc. auto.
  - destruct (pixi d fs1).1 as [|secs r|] eqn:Hb; simpl in *; [done| |auto].
    rewrite bool_decide_true by lia. auto.
Qed.

Lemma ready_keeps_stale t w evs fs1 :
  denied w = den → ready t w evs fs1 → same_stale locks den (fs w) fs1.
Proof.
  intros Hden [Hn|Hs Hu] p Hp; [done|].
  symmetry. apply stale_error_delete.
  rewrite <- Hden, stale_error_unlink. by destruct Hs as [n ->].
Qed.

Lemma fixture_keeps_stale t s f w o w' :
  denied w = den →
  fixture_run pixi t s f w o w' →
  same_stale locks den (fs w) (fs w').
Proof.
  intros Hden [e H1 H2|evs fs1 st tail fs2 H1 H2]; [done|]. simpl.
  intros p Hp. rewrite (ready_keeps_stale _ _ _ _ Hden H1 p Hp).
  destruct (spawned_by_verdict _ _ _ _ _ _ _ H2) as (_ & _ & [->| ->]);
    [done|]. symmetry. by apply keeps_stale.
Qed.

Lemma fixture_sim t s f wA wB oA wA' oB wB' :
  locks (lock_of t) →
  denied wA = den → denied wB = den →
  same_stale locks den (fs wA) (fs wB) →
  fixture_run pixi t s f wA oA wA' →
  fixture_run pixi t s f wB oB wB' →
  oA = oB ∧
  classification (produced wA wA') = classification (produced wB wB').
Proof.
  intros Hl HdA HdB HR HA HB. specialize (HR _ Hl).
  rewrite <- HdA in HR at 1. rewrite <- HdB in HR. rewrite !stale_error_unlink in HR.
  destruct HA as [eA A1 A2|evsA fsA stA tailA fsA' A1 A2];
    destruct HB as [eB B1 B2|evsB fsB stB tailB fsB' B1 B2];
    unfold emits; rewrite !produced_emits.
  - destruct A1 as [nA EA], B1 as [nB EB]. rewrite EA, EB in HR.
    split; [congruence|done].
  - exfalso. destruct A1 as [nA EA]. rewrite EA, A2 in HR.
    destruct B1 as [Hn|[nB EB] Hu].
    + by rewrite Hn in HR.
    + by rewrite EB, Hu in HR.
  - exfalso. destruct B1 as [nB EB]. rewrite EB, B2 in HR.
    destruct A1 as [Hn|[nA EA] Hu].
    + by rewrite Hn in HR.
    + by rewrite EA, Hu in HR.
  - destruct (spawned_by_verdict _ _ _ _ _ _ _ A2) as (CA & -> & _).
    destruct (spawned_by_verdict _ _ _ _ _ _ _ B2) as (CB & -> & _).
    rewrite !classification_app.
    destruct (ready_turn _ _ _ _ A1) as [-> _].
    destruct (ready_turn _ _ _ _ B1) as [-> _].
    change (classification (?e :: ?l)) with (classification ([e] ++ l)).
    rewrite !classification_app, CA, CB.
    rewrite (state_blind (Path.parent t) fsA fsB). done.
Qed.

Lemma loop_keeps_stale files s f w :
  denied w = den →
  same_stale locks den (fs w) (fs (A.generate_loop pixi files s f w).2).
Proof.
  revert s f w. induction files as [|t rest IH]; intros s f w Hden; [done|].
  rewrite generate_loop_cons.
  pose proof (process_fixture_run pixi t s f w) as Hrun.
  pose proof (fixture_keeps_stale _ _ _ _ _ _ Hden Hrun) as Hk.
  pose proof (proj1 (fixture_run_out _ _ _ _ _ _ _ Hrun)) as Hd1.
  destruct (A.process_fixture pixi t s f w) as [[[s' f'|r]|e|] w1];
    cbn [fst snd] in *; try done.
  intros p Hp. rewrite (Hk p Hp). apply IH; [congruence|done].
Qed.

Lemma loop_sim files s f wA wB :
  (∀ t, t ∈ files → locks (lock_of t)) →
  denied wA = den → denied wB = den →
  same_stale locks den (fs wA) (fs wB) →
  (A.generate_loop pixi files s f wA).1 = (A.generate_loop pixi files s f wB).1 ∧
  classification (produced wA (A.generate_loop pixi files s f wA).2) =
  classification (produced wB (A.generate_loop pixi files s f wB).2).
Proof.
  revert s f wA wB.
  induction files as [|t rest IH]; intros s f wA wB Hl HdA HdB HR.
  { simpl. by rewrite !produced_refl. }
  pose proof (generate_loop_out pixi rest) as Hlo.
  rewrite !generate_loop_cons.
  pose proof (process_fixture_run pixi t s f wA) as HA.
  pose proof (process_fixture_run pixi t s f wB) as HB.
  destruct (fixture_sim t s f _ _ _ _ _ _ (Hl t ltac:(left)) HdA HdB HR HA HB)
    as [Ho Hc].
  pose proof (fixture_keeps_stale _ _ _ _ _ _ HdA HA) as HkA.
  pose proof (fixture_keeps_stale _ _ _ _ _ _ HdB HB) as HkB.
  destruct (fixture_run_out _ _ _ _ _ _ _ HA) as [HdA1 HoA].
  destruct (fixture_run_out _ _ _ _ _ _ _ HB) as [HdB1 HoB].
  destruct (A.process_fixture pixi t s f wA) as [oA wA1].
  destruct (A.process_fixture pixi t s f wB) as [oB wB1].
  cbn [fst snd] in *. subst oB.
  destruct oA as [[s' f'|r]|e|]; cbn [fst snd]; try done.
  destruct (IH s' f' wA1 wB1) as [Ho' Hc'].
  - intros t' Ht'. apply Hl. by right.
  - congruence.
  - congruence.
  - intros p Hp. rewrite <- (HkA p Hp), <- (HkB p Hp). by apply HR.
  - split; [done|].
    rewrite (produced_trans _ _ _ HoA (Hlo s' f' wA1)).
    rewrite (produced_trans _ _ _ HoB (Hlo s' f' wB1)).
    rewrite !classification_app. congruence.
Qed.

End TwoRuns.

Lemma remove_tree_lookup m c p :
  Path.under c p = false → FS.remove_tree m c !! p = m !! p.
Proof.
  intros Hu. unfold FS.remove_tree. apply option_eq. intros n.
  rewrite map_lookup_filter_Some. simpl. tauto.
Qed.

Lemma stale_error_lookup den m1 m2 p :
  m1 !! p = m2 !! p → stale_error den m1 p = stale_error den m2 p.
Proof. unfold stale_error, unlink_error. simpl. by intros ->. Qed.

Lemma cleanup_fixture_lookup t c f w p :
  Path.under (cache_of t) p = false →
  fs (A.cleanup_fixture t c f w).2 !! p = fs w !! p.
Proof.
  intros Hu. destruct (fs w !! cache_of t) as [n|] eqn:Hc.
  - destruct (rmtree_error w (cache_of t)) as [e|] eqn:He.
    + by rewrite (cleanup_fixture_fail _ _ _ _ e).
    + rewrite cleanup_fixture_delete by done. simpl.
      by apply remove_tree_lookup.
  - by rewrite cleanup_fixture_skip.
Qed.

Lemma cleanup_loop_lookup files c f w p :
  (∀ t, t ∈ files → Path.under (cache_of t) p = false) →
  fs (A.cleanup_loop files c f w).2 !! p = fs w !! p.
Proof.
  revert c f w. induction files as [|t rest IH]; intros c f w Hu; [done|].
  simpl. unfold bind.
  pose proof (cleanup_fixture_lookup t c f w p (Hu t ltac:(left))) as H1.
  destruct (cleanup_fixture_total t c f w) as (c1 & f1 & w1 & E1 & _).
  rewrite E1 in *. cbn [fst snd] in *. rewrite <- H1.
  apply IH. intros t' Ht'. apply Hu. by right.
Qed.

Lemma cleanup_lookup files w p :
  (∀ t, t ∈ files → Path.under (cache_of t) p = false) →
  fs (A.cleanup_pixi_environments files w).2 !! p = fs w !! p.
Proof.
  intros Hu. unfold A.cleanup_pixi_environments, bind, print.
  pose proof (cleanup_loop_lookup files 0 0 (emit w (EPrint MsgCleaningUp)) p Hu)
    as H1.
  destruct (cleanup_loop_total files 0 0 (emit w (EPrint MsgCleaningUp)))
    as (c1 & f1 & w1 & E1 & _).
  rewrite E1 in *. done.
Qed.

Lemma main_summary script w :
  discovered script w ≠ [] →
  let files := discovered script w in
  let r := A.generate_loop pixi files 0 0 (loop_start script w) in
  let m := A.main pixi script w in
  classification (produced w m.2) =
    classification (produced (loop_start script w) r.2) ∧
  exit_status m.1 =
    match r.1 with
    | Done A.GenFalse => Some 1%Z
    | Done (A.GenCounts s f) =>
        if bool_decide (0 < f)%nat then Some 1%Z else Some 0%Z
    | Raised e => exit_status (Raised e : outcome unit)
    | Hung => None
    end ∧
  denied m.2 = denied w ∧
  (∀ p, (∀ t, t ∈ files → Path.under (cache_of t) p = false) →
        fs m.2 !! p = fs r.2 !! p).
Proof.
  intros Hd files r m.
  destruct (main_trace pixi script w Hd) as (tail & Hp & Hct & _ & Hcase).
  fold files r m in Hp, Hcase.
  split.
  { rewrite Hp, !classification_app, Hct, app_nil_r. done. }
  pose proof (proj1 (loop_run_out _ _ _ _ _ _ _
                       (generate_loop_run pixi files 0 0 (loop_start script w))))
    as Hden. fold r in Hden.
  change (denied (loop_start script w)) with (denied w) in Hden.
  subst m. rewrite (main_run pixi script w Hd) in Hcase |- *.
  cbv zeta in *. fold files r in Hcase |- *.
  destruct r.1 as [[|s f]|e|]; [| | |done].
  - by split_and!.
  - split_and!.
    + by destruct (bool_decide (0 < f)%nat).
    + destruct (cleanup_total files r.2) as (c' & f' & w' & E & D & _).
      assert (denied (if bool_decide (0 < s)%nat
                      then (A.cleanup_pixi_environments files r.2).2
                      else r.2) = denied w) as Hw3.
      { destruct (bool_decide (0 < s)%nat); [rewrite E; simpl|]; congruence. }
      by destruct (bool_decide (0 < f)%nat).
    + intros p Hu.
      destruct (bool_decide (0 < f)%nat), (bool_decide (0 < s)%nat); simpl;
        try done; by apply cleanup_lookup.
  - by split_and!.
Qed.


End Claims.

(** * The claims at sample inputs *)

(** Decides by evaluation that an event is in a stretch of output. *)
Ltac find_event := apply (bool_decide_unpack _); vm_compute; exact I.

Ltac by_eval := vm_compute; reflexivity.





Lemma tool_not_found_aborts_run_witness :
  (exit_status (A.main Ex.tool_absent Ex.script_A Ex.w_two).1 = Some 1%Z ∧
   ∃ l, produced Ex.w_two (A.main Ex.tool_absent Ex.script_A Ex.w_two).2 =
        l ++ [ESpawn (A.pixi_install (Ex.root /: "b"))
                (delete (Ex.root /: "b" /: "pixi.lock") (fs Ex.w_two));
              EPrint MsgPixiNotFound; EPrint MsgVisit; EPrint MsgAborted]) ∧
  (exit_status (B.main Ex.tool_absent Ex.script_B Ex.w_B_two).1 = Some 1%Z ∧
   ∃ l, produced Ex.w_B_two (B.main Ex.tool_absent Ex.script_B Ex.w_B_two).2 =
        l ++ [ESpawn (B.pixi_install (Ex.base_B /: "test-pull-request-pixi"))
                (fs Ex.w_B_two);
              EPrint MsgBPixiNotFound; EPrint MsgBCurl]).
Proof.
  split.
  - apply (proj1 (tool_not_found_aborts_run Ex.tool_absent)
             Ex.script_A Ex.w_two).
    + find_event.
    + reflexivity.
  - apply (proj2 (tool_not_found_aborts_run Ex.tool_absent)
             Ex.script_B Ex.w_B_two).
    + find_event.
    + reflexivity.
Defined.





Lemma missing_fixtures_root_exits_1_witness :
  A.find_pyproject_files (Path.parent (Path.parent Ex.script_A)) Ex.w_empty =
    (Done [],
     emits Ex.w_empty [EPrint (MsgFixturesDirNotFound (fixtures_dir Ex.script_A))]) ∧
  exit_status (A.main Ex.tool_ok Ex.script_A Ex.w_empty).1 = Some 1%Z ∧
  fs (A.main Ex.tool_ok Ex.script_A Ex.w_empty).2 = fs Ex.w_empty ∧
  produced Ex.w_empty (A.main Ex.tool_ok Ex.script_A Ex.w_empty).2 =
    [ EPrint MsgSearching;
      EPrint (MsgFixturesDirNotFound (fixtures_dir Ex.script_A));
      EPrint MsgNothingToProcess ] ∧
  (∀ req before,
     ESpawn req before
       ∉ produced Ex.w_empty (A.main Ex.tool_ok Ex.script_A Ex.w_empty).2).
Proof.
  apply (missing_fixtures_root_exits_1 Ex.tool_ok Ex.script_A Ex.w_empty).
  by_eval.
Defined.

Lemma tool_wait_bounded_300_A_witness :
  let t := Ex.toml "a" in
  let r := A.process_fixture Ex.tool_slow t 0 0 Ex.w_fresh in
  (req_timeout (A.pixi_install (Path.parent t)) = Some 300%nat ∧
   req_capture_output (A.pixi_install (Path.parent t)) = true ∧
   req_text (A.pixi_install (Path.parent t)) = true) ∧
  r.1 = Done (A.Continue 0 1) ∧
  classification (produced Ex.w_fresh r.2) = [Timeout] ∧
  (∃ l, produced Ex.w_fresh r.2 =
        l ++ [ESpawn (A.pixi_install (Path.parent t)) (fs Ex.w_fresh);
              EPrint MsgTimeout]) ∧
  A.generate_loop Ex.tool_slow [t] 0 0 Ex.w_fresh =
    A.generate_loop Ex.tool_slow [] 0 1 r.2.
Proof.
  cbv zeta. split.
  - destruct (proj1 (tool_wait_bounded_300_A Ex.tool_slow)
                [Ex.toml "a"] Ex.w_fresh
                (A.pixi_install (Path.parent (Ex.toml "a"))) (fs Ex.w_fresh))
      as (_ & Ht & Hc & Hx & _); [find_event|done].
  - apply (proj2 (proj2 (tool_wait_bounded_300_A Ex.tool_slow))
             (Ex.toml "a") [] 0%nat 0%nat Ex.w_fresh
             (A.pixi_install (Path.parent (Ex.toml "a"))) (fs Ex.w_fresh)).
    + find_event.
    + simpl. lia.
Defined.



Lemma tool_missing_leaves_lock_deleted_A_witness :
  let t := Ex.toml "a" in
  let w := loop_start Ex.script_A Ex.w_locked in
  (∃ l1 l2 l3,
     produced w (A.process_fixture Ex.tool_absent t 0 0 w).2 =
       l1 ++ EUnlink (lock_of t) ::
       l2 ++ ESpawn (A.pixi_install (Path.parent t)) (delete (lock_of t) (fs w)) ::
       l3) ∧
  exit_status (A.main Ex.tool_absent Ex.script_A Ex.w_locked).1 = Some 1%Z ∧
  fs (A.main Ex.tool_absent Ex.script_A Ex.w_locked).2 =
    delete (lock_of t) (fs w) ∧
  fs (A.main Ex.tool_absent Ex.script_A Ex.w_locked).2 !! lock_of t = None.
Proof.
  cbv zeta.
  apply (tool_missing_leaves_lock_deleted_A Ex.tool_absent Ex.script_A
           Ex.w_locked [] (Ex.toml "a") [] 0%nat 0%nat
           (loop_start Ex.script_A Ex.w_locked)).
  - by_eval.
  - reflexivity.
  - by_eval.
  - apply not_elem_of_empty.
  - reflexivity.
Defined.

Lemma unlink_error_escapes_A_witness :
  let t := Ex.toml "a" in
  let w := loop_start Ex.script_A Ex.w_lock_is_dir in
  let e := IsADirectoryError (Path.str (lock_of t)) in
  is_OSError e = true ∧
  A.process_fixture Ex.tool_ok t 0 0 w =
    (Raised e, emits w (header t ++ [EPrint MsgLockExists])) ∧
  classification (header t ++ [EPrint MsgLockExists]) = [] ∧
  (A.generate_lock_files Ex.tool_ok ([] ++ t :: [])
     (emits Ex.w_lock_is_dir [EPrint MsgSearching])).1 = Raised e ∧
  A.main Ex.tool_ok Ex.script_A Ex.w_lock_is_dir =
    (Raised e, emits w (header t ++ [EPrint MsgLockExists])) ∧
  Forall (λ ev, is_summary_event ev = false)
    (produced Ex.w_lock_is_dir
       (A.main Ex.tool_ok Ex.script_A Ex.w_lock_is_dir).2).
Proof.
  cbv zeta.
  apply (unlink_error_escapes_A Ex.tool_ok Ex.script_A Ex.w_lock_is_dir
           [] (Ex.toml "a") [] 0%nat 0%nat
           (loop_start Ex.script_A Ex.w_lock_is_dir)).
  - by_eval.
  - reflexivity.
  - exists Dir. by_eval.
  - by_eval.
Defined.

(** * Further properties of the two scripts *)

Section Extras.

Variable pixi : path → filesystem → behaviour * filesystem.

(** ** The locator *)

Lemma relative_to_app d a : Path.relative_to d (d ++ a) = Some a.
Proof. induction d as [|x d IH]; simpl; [done|]. by rewrite decide_True. Qed.

Lemma glob_pattern_spec dir name p :
  FS.glob_pattern dir name p = true ↔ ∃ x, p = dir ++ [x; name].
Proof.
  unfold FS.glob_pattern. split.
  - destruct (Path.relative_to dir p) as [[|x [|n [|]]]|] eqn:Hr; try done.
    intros ->%bool_decide_eq_true. apply relative_to_Some in Hr. by exists x.
  - intros [x ->]. rewrite relative_to_app. by apply bool_decide_eq_true.
Qed.

Lemma glob_children_spec m dir name p :
  p ∈ FS.glob_children m dir name ↔
  is_Some (m !! p) ∧ ∃ x, p = dir ++ [x; name].
Proof.
  unfold FS.glob_children.
  rewrite list_elem_of_filter, glob_pattern_spec, list_elem_of_fmap.
  split.
  - intros [Hx ([p' n] & -> & Hin%elem_of_map_to_list)]. simpl in *.
    split; [by exists n|done].
  - intros [[n Hn] Hx]. split; [done|]. exists (p, n). split; [done|].
    by apply elem_of_map_to_list.
Qed.

(** X1: when the fixtures directory exists, [find_pyproject_files] prints
    nothing and changes nothing, and returns without repetition exactly the
    entries [<fixtures>/<x>/pyproject.toml] that exist; for each of them the
    name printed for the fixture is [<x>], and the lock file and the
    environment directory the script looks at are its siblings
    [<fixtures>/<x>/pixi.lock] and [<fixtures>/<x>/.pixi]. *)
Theorem find_pyproject_files_exact base w :
  let dir := Path.join base (Path.of_string PIXI_TEST_DATA) in
  FS.exists_ (fs w) dir = true →
  ∃ files,
    A.find_pyproject_files base w = (Done files, w) ∧
    NoDup files ∧
    (∀ p, p ∈ files ↔
          is_Some (fs w !! p) ∧ ∃ x, p = dir ++ [x; "pyproject.toml"]) ∧
    (∀ x, dir ++ [x; "pyproject.toml"] ∈ files →
          Path.name (Path.parent (dir ++ [x; "pyproject.toml"])) = x ∧
          lock_of (dir ++ [x; "pyproject.toml"]) = dir ++ [x; "pixi.lock"] ∧
          cache_of (dir ++ [x; "pyproject.toml"]) = dir ++ [x; ".pixi"]).
Proof.
  intros dir Hex. unfold A.find_pyproject_files, bind, path_exists.
  fold dir. rewrite Hex. simpl.
  eexists. split; [done|]. split_and!.
  - unfold FS.glob_children. apply NoDup_filter, NoDup_fst_map_to_list.
  - intros p. apply glob_children_spec.
  - intros x _. unfold lock_of, cache_of, Path.child.
    rewrite parent_app2, <- !app_assoc. split_and!; [|done..].
    unfold Path.name. apply List.last_last.
Qed.

(** ** The shape of a run of Variant A *)

Lemma successes_failures l :
  ToolNotFound ∉ l → (successes l + failures l)%nat = length l.
Proof.
  induction l as [|oc l IH]; [done|].
  intros [Hoc Hl]%not_elem_of_cons. specialize (IH Hl).
  rewrite successes_cons, failures_cons. simpl.
  destruct oc; try done;
    repeat (destruct (decide _) as [?|?]); try lia;
    exfalso; intuition congruence.
Qed.

Lemma main_forms script w :
  let m := A.main pixi script w in
  let files := discovered script w in
  (files = [] ∧ m.1 = Raised (SystemExit 1) ∧
   ∃ b, produced w m.2 =
        EPrint MsgSearching ::
        (if b : bool then []
         else [EPrint (MsgFixturesDirNotFound (fixtures_dir script))]) ++
        [EPrint MsgNothingToProcess]) ∨
  (files ≠ [] ∧
   ∃ lp tail,
     produced w m.2 =
       [EPrint MsgSearching; EPrint (MsgFound (length files))] ++ lp ++ tail ∧
     Forall (λ e, is_turn_event e = true) lp ∧
     ((m.1 = Raised (SystemExit 1) ∧ tail = [EPrint MsgAborted] ∧
       ToolNotFound ∈ classification lp) ∨
      (∃ s f cl,
         m.1 = (if bool_decide (0 < f)%nat then Raised (SystemExit 1)
                else Done tt) ∧
         tail = cl ++ summary s f ++
                (if bool_decide (0 < f)%nat then [EPrint MsgSomeFailed] else []) ∧
         Forall (λ e, is_cleanup_event e = true) cl ∧
         s = successes (classification lp) ∧
         f = failures (classification lp) ∧
         length (classification lp) = length files ∧
         ToolNotFound ∉ classification lp) ∨
      (∃ e, m.1 = Raised e ∧ is_OSError e = true ∧ tail = [] ∧
            ToolNotFound ∉ classification lp))).
Proof.
  intros m files. subst m files.
  destruct (decide (discovered script w = [])) as [Hd|Hd].
  { left. rewrite (main_nothing pixi script w Hd). cbn [fst snd].
    rewrite produced_app. split_and!; [done..|]. by eexists. }
  right. split; [done|].
  destruct (main_trace pixi script w Hd) as (tail & Hp & _ & _ & Hcase).
  pose proof (generate_loop_run pixi (discovered script w) 0 0
                (loop_start script w)) as Hl.
  pose proof (loop_run_segments pixi _ _ _ _ _ _ Hl) as Hs.
  exists (produced (loop_start script w)
            (A.generate_loop pixi (discovered script w) 0 0
               (loop_start script w)).2), tail.
  split; [done|]. split; [by eapply loop_run_turn_events|].
  destruct (A.generate_loop pixi _ 0 0 _).1 as [[|s f]|e|]; [| | |done].
  - left. destruct Hcase as (-> & -> & _). split_and!; [done..|].
    destruct Hs as (pre & t & post & segs & last & _ & -> & _ & _ & Hc).
    rewrite classification_app, Hc. apply elem_of_app. right. left.
  - right. left. destruct Hcase as (Hm & cl & -> & Hcl & _).
    destruct Hs as (segs & Heq & HF & Hsucc & Hfail).
    destruct (completed_turns_classification _ _ HF) as [Hlen Hnf].
    rewrite <- Heq in Hlen, Hnf.
    exists s, f, cl. by split_and!.
  - right. right. destruct Hcase as (-> & -> & _).
    destruct Hs as (pre & t & post & segs & _ & -> & HF & He).
    exists e. split_and!; [done..|].
    rewrite !classification_app. simpl. rewrite app_nil_r.
    by apply completed_turns_classification in HF as [_ ?].
Qed.

(** Membership of one event in the output of [main], part by part. *)
Ltac not_in H :=
  simpl in H;
  repeat (apply elem_of_cons in H as [H|H]; [discriminate H|]);
  try (by apply elem_of_nil in H).

Lemma not_in_kind (k : event → bool) e l :
  Forall (λ e', k e' = true) l → k e = false → e ∉ l.
Proof.
  intros HF Hk Hin. rewrite Forall_forall in HF. apply HF in Hin. congruence.
Qed.

(** X2: [generate_lock_files] on the empty list prints "No pyproject.toml
    files found" and returns [False] without touching anything; but [main]
    never reaches that branch, so a run of the script never prints that
    line, and [main] prints "Lock file generation aborted" exactly when a
    turn reported that the tool was not found. *)
Theorem empty_branch_unreachable_from_main :
  (∀ w, A.generate_lock_files pixi [] w =
        (Done A.GenFalse, emits w [EPrint MsgNoFilesFound])) ∧
  (∀ script w,
     EPrint MsgNoFilesFound ∉ produced w (A.main pixi script w).2) ∧
  (∀ script w,
     EPrint MsgAborted ∈ produced w (A.main pixi script w).2 ↔
     ToolNotFound ∈ classification (produced w (A.main pixi script w).2)).
Proof.
  split_and!.
  - done.
  - intros script w Hin.
    destruct (main_forms script w) as [(_ & _ & b & Hp)|(_ & lp & tail & Hp & Hlp & Hc)];
      rewrite Hp in Hin.
    { destruct b; not_in Hin. }
    apply elem_of_app in Hin as [Hin|Hin]; [not_in Hin|].
    apply elem_of_app in Hin as [Hin|Hin].
    { by apply (not_in_kind _ _ _ Hlp) in Hin. }
    destruct Hc as [(_ & -> & _)|[(s & f & cl & _ & -> & Hcl & _)|(e & _ & _ & -> & _)]].
    + not_in Hin.
    + apply elem_of_app in Hin as [Hin|Hin].
      { by apply (not_in_kind _ _ _ Hcl) in Hin. }
      unfold summary in Hin. destruct (bool_decide (0 < f)%nat); not_in Hin.
    + by apply elem_of_nil in Hin.
  - intros script w.
    destruct (main_forms script w) as [(_ & _ & b & Hp)|(_ & lp & tail & Hp & Hlp & Hc)];
      rewrite Hp.
    { split; intros Hin; destruct b; not_in Hin. }
    destruct Hc as [(_ & -> & Hnf)|[(s & f & cl & _ & -> & Hcl & _ & _ & _ & Hnf)|
                                    (e & _ & _ & -> & Hnf)]].
    + split; intros _.
      * rewrite !classification_app. apply elem_of_app. right.
        apply elem_of_app. by left.
      * apply elem_of_app. right. apply elem_of_app. right. left.
    + split; intros Hin; exfalso.
      * apply elem_of_app in Hin as [Hin|Hin]; [not_in Hin|].
        apply elem_of_app in Hin as [Hin|Hin].
        { by apply (not_in_kind _ _ _ Hlp) in Hin. }
        apply elem_of_app in Hin as [Hin|Hin].
        { by apply (not_in_kind _ _ _ Hcl) in Hin. }
        unfold summary in Hin. destruct (bool_decide (0 < f)%nat); not_in Hin.
      * rewrite !classification_app in Hin. simpl in Hin.
        rewrite (cleanup_events_no_outcome _ Hcl) in Hin.
        apply elem_of_app in Hin as [Hin|Hin]; [done|].
        unfold summary in Hin. destruct (bool_decide (0 < f)%nat); not_in Hin.
    + rewrite app_nil_r. split; intros Hin; exfalso.
      * apply elem_of_app in Hin as [Hin|Hin]; [not_in Hin|].
        by apply (not_in_kind _ _ _ Hlp) in Hin.
      * rewrite !classification_app in Hin. simpl in Hin. done.
Qed.

(** ** Runs that never end *)

Lemma spawn_in_turn m r0 b0 l req before :
  ESpawn req before ∈ [EPrint m; ESpawn r0 b0] ++ l →
  Forall (λ e, is_spawn e = false) l →
  req = r0 ∧ before = b0.
Proof.
  intros [Hin|Hin]%elem_of_app Hl.
  - apply elem_of_cons in Hin as [Hin|Hin]; [done|].
    apply elem_of_cons in Hin as [Hin|Hin]; [by simplify_eq|].
    by apply elem_of_nil in Hin.
  - rewrite Forall_forall in Hl. by apply Hl in Hin.
Qed.

Lemma main_loop_hangs base dirs w :
  (B.main_loop pixi base dirs w).1 = Hung ↔
  ∃ req before,
    ESpawn req before ∈ produced w (B.main_loop pixi base dirs w).2 ∧
    (pixi (req_cwd req) before).1 = Hangs.
Proof.
  revert w. induction dirs as [|d rest IH]; intros w.
  - simpl. rewrite produced_refl. split; [done|].
    by intros (? & ? & ?%elem_of_nil & _).
  - rewrite main_loop_cons. destruct (FS.exists_ (fs w) (base /: d)).
    + rewrite (generate_eq pixi (base /: d) d w). cbv zeta.
      destruct (pixi (base /: d) (fs w)) as [[|secs r|] fs'] eqn:Hp.
      * cbn [fst snd]. rewrite produced_app. split; [done|].
        intros (req & before & Hin & Hh). exfalso.
        apply spawn_in_turn in Hin as [-> ->]; [|by repeat constructor].
        simpl in Hh. by rewrite Hp in Hh.
      * destruct (returncode r =? 0)%Z.
        -- set (w1 := World fs' (denied w) _).
           destruct (main_loop_out pixi base rest w1) as [_ Ho1].
           assert (out w1 = out w ++ produced w w1) as Ho
             by (subst w1; by rewrite produced_emits).
           rewrite (produced_trans _ _ _ Ho Ho1), IH. split.
           ++ intros (req & before & Hin & Hh). exists req, before.
              split; [|done]. apply elem_of_app. by right.
           ++ intros (req & before & [Hin|Hin]%elem_of_app & Hh);
                [|by exists req, before].
              exfalso. subst w1. rewrite produced_emits in Hin.
              apply spawn_in_turn in Hin as [-> ->]; [|by repeat constructor].
              simpl in Hh. by rewrite Hp in Hh.
        -- cbn [fst snd]. rewrite produced_emits. split; [done|].
           intros (req & before & Hin & Hh). exfalso.
           apply spawn_in_turn in Hin as [-> ->]; [|by repeat constructor].
           simpl in Hh. by rewrite Hp in Hh.
      * cbn [fst snd]. rewrite produced_emits. split; [|done]. intros _.
        exists (B.pixi_install (base /: d)), (fs w). split.
        -- right. left.
        -- simpl. by rewrite Hp.
    + set (w1 := emits w [EPrint (MsgBDirNotFound (base /: d))]).
      destruct (main_loop_out pixi base rest w1) as [_ Ho1].
      assert (out w1 = out w ++ produced w w1) as Ho
        by (subst w1; by rewrite produced_app).
      rewrite (produced_trans _ _ _ Ho Ho1), IH. split.
      * intros (req & before & Hin & Hh). exists req, before.
        split; [|done]. apply elem_of_app. by right.
      * intros (req & before & [Hin|Hin]%elem_of_app & Hh);
          [|by exists req, before].
        subst w1. rewrite produced_app in Hin. no_spawn Hin.
Qed.

(** X3: Variant A cannot be blocked by the tool: whatever the tool does,
    [generate_lock_files] and [main] end (the 300 second timeout turns a
    child that never exits into a timeout).  Variant B waits without bound:
    its [main] never ends exactly when some call of the tool never
    returns. *)
Theorem only_variant_B_can_hang :
  (∀ files w, (A.generate_lock_files pixi files w).1 ≠ Hung) ∧
  (∀ script w, (A.main pixi script w).1 ≠ Hung) ∧
  (∀ script w,
     (B.main pixi script w).1 = Hung ↔
     ∃ req before,
       ESpawn req before ∈ produced w (B.main pixi script w).2 ∧
       (pixi (req_cwd req) before).1 = Hangs).
Proof.
  split_and!.
  - intros files w. destruct (decide (files = [])) as [->|Hne]; [done|].
    rewrite generate_lock_files_nonempty by done.
    pose proof (loop_run_segments pixi _ _ _ _ _ _
                  (generate_loop_run pixi files 0 0
                     (emits w [EPrint (MsgFound (length files))]))) as Hs.
    intros Hh. by rewrite Hh in Hs.
  - intros script w.
    destruct (main_forms script w) as [(_ & -> & _)|(_ & lp & tail & _ & _ & Hc)];
      [done|].
    destruct Hc as [(-> & _)|[(s & f & cl & -> & _)|(e & -> & _)]]; try done.
    by destruct (bool_decide (0 < f)%nat).
  - intros script w. unfold B.main. cbv zeta.
    generalize B.PIXI_DIRS. intros dirs. set (base := Path.parent script).
    pose proof (main_loop_hangs base dirs w) as Hh.
    destruct (main_loop_out pixi base dirs w) as [_ Ho].
    unfold bind.
    destruct (B.main_loop pixi base dirs w) as [[[]|e|] w1]; cbn [fst snd] in *.
    + split; [done|]. intros (req & before & Hin & Hx). apply Hh.
      exists req, before. split; [|done].
      unfold print in Hin. cbn [snd] in Hin. unfold produced in Hin.
      simpl in Hin. rewrite Ho, <- app_assoc, drop_app_length in Hin.
      apply elem_of_app in Hin as [Hin|Hin]; [done|no_spawn Hin].
    + done.
    + done.
Qed.

(** ** The summary *)

(** X9: when [main] of Variant A prints its summary, the numbers in it are
    right: "Success" is the number of fixtures reported as successes,
    "Failed" the number reported as failures or timeouts, and together they
    account for every discovered manifest; the run ends with status 0
    exactly when "Failed" is 0, and the line "Some lock files failed to
    generate" is printed exactly when it is not. *)
Theorem summary_reports_the_outcomes script w s f :
  let m := A.main pixi script w in
  let cls := classification (produced w m.2) in
  EPrint (MsgSuccess s) ∈ produced w m.2 →
  EPrint (MsgFailed f) ∈ produced w m.2 →
  s = successes cls ∧
  f = failures cls ∧
  (s + f)%nat = length (discovered script w) ∧
  (exit_status m.1 = Some 0%Z ↔ f = 0%nat) ∧
  (EPrint MsgSomeFailed ∈ produced w m.2 ↔ (0 < f)%nat).
Proof.
  intros m cls Hs Hf. subst m cls.
  destruct (main_forms script w) as [(_ & _ & b & Hp)|(_ & lp & tail & Hp & Hlp & Hc)];
    rewrite Hp in *.
  { destruct b; not_in Hs. }
  assert (∀ e, is_turn_event e = false →
            e ∈ [EPrint MsgSearching;
                 EPrint (MsgFound (length (discovered script w)))] ++ lp ++ tail →
            e ≠ EPrint MsgSearching →
            e ≠ EPrint (MsgFound (length (discovered script w))) →
            e ∈ tail) as Htail.
  { intros e He [Hin|Hin]%elem_of_app H1 H2.
    - apply elem_of_cons in Hin as [->|Hin]; [done|].
      apply elem_of_cons in Hin as [->|Hin]; [done|].
      by apply elem_of_nil in Hin.
    - apply elem_of_app in Hin as [Hin|Hin]; [|done].
      by apply (not_in_kind _ _ _ Hlp) in Hin. }
  apply Htail in Hs; [|done..]. apply Htail in Hf; [|done..].
  destruct Hc as [(_ & -> & _)|[(s0 & f0 & cl & Hm & -> & Hcl & Hs0 & Hf0 & Hlen & Hnf)|
                                  (e & _ & _ & -> & _)]].
  - not_in Hs.
  - assert (s = s0) as ->.
    { apply elem_of_app in Hs as [Hs|Hs].
      { by apply (not_in_kind _ _ _ Hcl) in Hs. }
      unfold summary in Hs. simpl in Hs.
      repeat (apply elem_of_cons in Hs as [Hs|Hs]; [by simplify_eq|]).
      destruct (bool_decide (0 < f0)%nat); not_in Hs. }
    assert (f = f0) as ->.
    { apply elem_of_app in Hf as [Hf|Hf].
      { by apply (not_in_kind _ _ _ Hcl) in Hf. }
      unfold summary in Hf. simpl in Hf.
      repeat (apply elem_of_cons in Hf as [Hf|Hf]; [by simplify_eq|]).
      destruct (bool_decide (0 < f0)%nat); not_in Hf. }
    assert (classification
              ([EPrint MsgSearching;
                EPrint (MsgFound (length (discovered script w)))] ++ lp ++
               cl ++ summary s0 f0 ++
               (if bool_decide (0 < f0)%nat then [EPrint MsgSomeFailed] else []))
            = classification lp) as ->.
    { rewrite !classification_app, (cleanup_events_no_outcome _ Hcl). simpl.
      destruct (bool_decide (0 < f0)%nat); simpl; by rewrite app_nil_r. }
    split_and!; [done|done| | |].
    + rewrite Hs0, Hf0, <- Hlen. by apply successes_failures.
    + rewrite Hm. case_bool_decide; simpl; split; intros; (done || lia).
    + split.
      * intros Hin. destruct (decide (0 < f0)%nat) as [|Hn]; [done|]. exfalso.
        rewrite bool_decide_false in Hin by done.
        apply elem_of_app in Hin as [Hin|Hin]; [not_in Hin|].
        apply elem_of_app in Hin as [Hin|Hin].
        { by apply (not_in_kind _ _ _ Hlp) in Hin. }
        apply elem_of_app in Hin as [Hin|Hin].
        { by apply (not_in_kind _ _ _ Hcl) in Hin. }
        unfold summary in Hin. not_in Hin.
      * intros Hpos. rewrite bool_decide_true by done.
        do 3 (apply elem_of_app; right). unfold summary.
        do 5 apply list_elem_of_further. apply list_elem_of_here.
  - by apply elem_of_nil in Hs.
Qed.

(** ** What Variant A touches *)

Lemma fixture_frame t s f w o w' p :
  fixture_run pixi t s f w o w' →
  p ≠ lock_of t →
  (∀ d m, (pixi d m).2 !! p = m !! p) →
  fs w' !! p = fs w !! p.
Proof.
  intros [e H1 H2|evs fs1 st tail fs2 H1 H2] Hp Htool; [done|]. simpl.
  assert (fs1 !! p = fs w !! p) as <-.
  { destruct H1; [done|]. by apply lookup_delete_ne. }
  destruct (spawned_by_verdict pixi _ _ _ _ _ _ _ H2) as (_ & _ & [->| ->]);
    [done|apply Htool].
Qed.

Lemma loop_frame files s f w o w' p :
  loop_run pixi files s f w o w' →
  (∀ t, t ∈ files → p ≠ lock_of t) →
  (∀ d m, (pixi d m).2 !! p = m !! p) →
  fs w' !! p = fs w !! p.
Proof.
  induction 1 as [s f w|t rest s f w s' f' w1 o w' Hb Hl IH|
                  t rest s f w r w1 Hb|t rest s f w e w1 Hb]; intros Hp Htool.
  - done.
  - rewrite IH; [|intros t' Ht'; apply Hp; by right|done].
    eapply fixture_frame; [done| |done]. apply Hp. left.
  - eapply fixture_frame; [done| |done]. apply Hp. left.
  - eapply fixture_frame; [done| |done]. apply Hp. left.
Qed.

Lemma fixture_deletions t s f w o w' :
  fixture_run pixi t s f w o w' →
  (∀ p, EUnlink p ∈ produced w w' → p = lock_of t) ∧
  (∀ p, ERmtree p ∉ produced w w').
Proof.
  intros Hrun. split.
  - destruct Hrun as [e H1 H2|evs fs1 st tail fs2 H1 H2]; unfold emits;
      rewrite produced_emits; intros p Hin.
    + unfold header in Hin. not_in Hin.
    + apply elem_of_app in Hin as [Hin|Hin].
      * destruct H1; unfold header in Hin; simpl in Hin;
          repeat (apply elem_of_cons in Hin as [Hin|Hin]; [by simplify_eq|]);
          by apply elem_of_nil in Hin.
      * apply elem_of_cons in Hin as [Hin|Hin]; [done|].
        destruct H2; not_in Hin.
  - intros p Hin.
    by apply (not_in_kind _ _ _ (fixture_run_turn_events pixi _ _ _ _ _ _ Hrun))
      in Hin.
Qed.

Lemma loop_deletions files s f w o w' p :
  loop_run pixi files s f w o w' →
  EUnlink p ∈ produced w w' →
  ∃ t, t ∈ files ∧ p = lock_of t.
Proof.
  induction 1 as [s f w|t rest s f w s' f' w1 o w' Hb Hl IH|
                  t rest s f w r w1 Hb|t rest s f w e w1 Hb]; intros Hin.
  - rewrite produced_refl in Hin. by apply elem_of_nil in Hin.
  - rewrite (produced_trans w w1 w' (proj2 (fixture_run_out _ _ _ _ _ _ _ Hb))
               (proj2 (loop_run_out _ _ _ _ _ _ _ Hl))) in Hin.
    apply elem_of_app in Hin as [Hin|Hin].
    + exists t. split; [left|]. by eapply fixture_deletions.
    + destruct (IH Hin) as (t' & Ht' & ->). exists t'. split; [by right|done].
  - exists t. split; [left|]. by eapply fixture_deletions.
  - exists t. split; [left|]. by eapply fixture_deletions.
Qed.

Lemma cleanup_loop_deletions files c f w p :
  ERmtree p ∈ produced w (A.cleanup_loop files c f w).2 →
  ∃ t, t ∈ files ∧ p = cache_of t.
Proof.
  revert c f w. induction files as [|t rest IH]; intros c f w.
  - simpl. rewrite produced_refl. by intros ?%elem_of_nil.
  - destruct (cleanup_fixture_total t c f w) as (c1 & f1 & w1 & E1 & _ & O1 & _).
    destruct (cleanup_loop_total rest c1 f1 w1) as (c2 & f2 & w2 & E2 & _ & O2 & _).
    assert (A.cleanup_loop (t :: rest) c f w = (Done (c2, f2), w2)) as ->.
    { simpl. unfold bind. rewrite E1. simpl. by rewrite E2. }
    cbn [snd]. rewrite (produced_trans _ _ _ O1 O2).
    intros [Hin|Hin]%elem_of_app.
    + exists t. split; [left|].
      destruct (fs w !! cache_of t) as [n|] eqn:Hc.
      * destruct (rmtree_error w (cache_of t)) as [e|] eqn:He.
        -- rewrite (cleanup_fixture_fail _ _ _ _ e) in E1 by done.
           simplify_eq. rewrite produced_app in Hin. not_in Hin.
        -- rewrite cleanup_fixture_delete in E1 by done. simplify_eq.
           rewrite produced_emits in Hin.
           apply elem_of_cons in Hin as [Hin|Hin]; [by simplify_eq|].
           not_in Hin.
      * rewrite cleanup_fixture_skip in E1 by done. simplify_eq.
        rewrite produced_app in Hin. not_in Hin.
    + specialize (IH c1 f1 w1). rewrite E2 in IH. cbn [snd] in IH.
      destruct (IH Hin) as (t' & Ht' & ->). exists t'. split; [by right|done].
Qed.

Lemma cleanup_deletions files w p :
  ERmtree p ∈ produced w (A.cleanup_pixi_environments files w).2 →
  ∃ t, t ∈ files ∧ p = cache_of t.
Proof.
  unfold A.cleanup_pixi_environments, bind, print, ret.
  set (w0 := emit w (EPrint MsgCleaningUp)).
  pose proof (cleanup_loop_deletions files 0 0 w0 p) as H.
  destruct (cleanup_loop_total files 0 0 w0) as (c & f & w1 & E & _ & O & _).
  rewrite E in *. cbn [fst snd] in *.
  assert (produced w (emit w1 (EPrint (MsgCleaned c f))) =
          [EPrint MsgCleaningUp] ++ produced w0 w1 ++ [EPrint (MsgCleaned c f)])
    as ->.
  { unfold produced at 1. simpl. rewrite O. subst w0. simpl.
    rewrite <- !app_assoc. by rewrite drop_app_length. }
  intros [Hin|Hin]%elem_of_app; [not_in Hin|].
  apply elem_of_app in Hin as [Hin|Hin]; [by apply H|not_in Hin].
Qed.

(** The output of [main] around the loop, with the cleaner's part spelled
    out. *)
Lemma main_produced script w :
  discovered script w ≠ [] →
  let files := discovered script w in
  let r := A.generate_loop pixi files 0 0 (loop_start script w) in
  produced w (A.main pixi script w).2 =
    [EPrint MsgSearching; EPrint (MsgFound (length files))] ++
    produced (loop_start script w) r.2 ++
    match r.1 with
    | Done A.GenFalse => [EPrint MsgAborted]
    | Done (A.GenCounts s f) =>
        (if bool_decide (0 < s)%nat
         then produced r.2 (A.cleanup_pixi_environments files r.2).2 else []) ++
        summary s f ++
        (if bool_decide (0 < f)%nat then [EPrint MsgSomeFailed] else [])
    | _ => []
    end.
Proof.
  intros Hd files r. rewrite (main_run pixi script w Hd). cbv zeta.
  fold files r.
  pose proof (generate_loop_out pixi files 0 0 (loop_start script w)) as Ho.
  fold r in Ho.
  assert (out (loop_start script w) =
          out w ++ [EPrint MsgSearching; EPrint (MsgFound (length files))]) as Hls.
  { subst files. rewrite <- (produced_loop_start script w Hd).
    unfold loop_start. by rewrite produced_app. }
  assert (∀ w' l, out w' = out r.2 ++ l →
            produced w w' =
              [EPrint MsgSearching; EPrint (MsgFound (length files))]
                ++ produced (loop_start script w) r.2 ++ l) as Hprod.
  { intros w' l Hw'. unfold produced at 1. rewrite Hw', Ho, Hls.
    rewrite <- !app_assoc. by rewrite drop_app_length. }
  destruct r.1 as [[|s f]|e|].
  - by apply Hprod.
  - destruct (cleanup_total files r.2) as (c' & f' & w' & E & _ & O & _).
    assert (out (if bool_decide (0 < s)%nat
                 then (A.cleanup_pixi_environments files r.2).2 else r.2) =
            out r.2 ++ (if bool_decide (0 < s)%nat
                        then produced r.2 (A.cleanup_pixi_environments files r.2).2
                        else [])) as Hw3.
    { destruct (bool_decide (0 < s)%nat); [by rewrite E|by rewrite app_nil_r]. }
    destruct (bool_decide (0 < f)%nat); cbn [fst snd]; apply Hprod; simpl;
      rewrite Hw3, <- ?app_assoc; simpl; by rewrite ?app_nil_r.
  - apply Hprod. by rewrite app_nil_r.
  - apply Hprod. by rewrite app_nil_r.
Qed.

(** X6: the only things [main] of Variant A ever deletes are the
    [pixi.lock] of a discovered fixture (by [unlink]) and the [.pixi] tree
    of a discovered fixture (by [rmtree]). *)
Theorem deletions_target_locks_and_caches script w :
  (∀ p, EUnlink p ∈ produced w (A.main pixi script w).2 →
        ∃ t, t ∈ discovered script w ∧ p = lock_of t) ∧
  (∀ p, ERmtree p ∈ produced w (A.main pixi script w).2 →
        ∃ t, t ∈ discovered script w ∧ p = cache_of t).
Proof.
  destruct (decide (discovered script w = [])) as [Hd|Hd].
  { rewrite (main_nothing pixi script w Hd). cbn [snd]. rewrite produced_app.
    split; intros p Hin; exfalso; destruct (FS.exists_ _ _); not_in Hin. }
  rewrite (main_produced script w Hd). cbv zeta.
  pose proof (generate_loop_run pixi (discovered script w) 0 0
                (loop_start script w)) as Hl.
  pose proof (loop_run_turn_events pixi _ _ _ _ _ _ Hl) as Hte.
  set (r := A.generate_loop pixi (discovered script w) 0 0 (loop_start script w))
    in *.
  split; intros p Hin.
  - apply elem_of_app in Hin as [Hin|Hin]; [not_in Hin|].
    apply elem_of_app in Hin as [Hin|Hin]; [by eapply loop_deletions|].
    exfalso. destruct r.1 as [[|s f]|e|]; [not_in Hin| |not_in Hin..].
    apply elem_of_app in Hin as [Hin|Hin].
    + destruct (bool_decide (0 < s)%nat); [|not_in Hin].
      destruct (cleanup_total (discovered script w) r.2)
        as (c' & f' & w' & E & _ & _ & Hcl & _).
      rewrite E in Hin. by apply (not_in_kind _ _ _ Hcl) in Hin.
    + unfold summary in Hin. destruct (bool_decide (0 < f)%nat); not_in Hin.
  - apply elem_of_app in Hin as [Hin|Hin]; [not_in Hin|].
    apply elem_of_app in Hin as [Hin|Hin].
    { by apply (not_in_kind _ _ _ Hte) in Hin. }
    destruct r.1 as [[|s f]|e|]; [not_in Hin| |not_in Hin..].
    apply elem_of_app in Hin as [Hin|Hin].
    + destruct (bool_decide (0 < s)%nat); [|not_in Hin].
      by apply cleanup_deletions in Hin.
    + exfalso. unfold summary in Hin.
      destruct (bool_decide (0 < f)%nat); not_in Hin.
Qed.

Lemma cache_not_above_manifest d x y :
  Path.under (d ++ [x; ".pixi"]) (d ++ [y; "pyproject.toml"]) = false.
Proof.
  unfold Path.under. apply bool_decide_eq_false.
  induction d as [|z d IH]; simpl.
  - case_decide; [|by intros []]. simpl. by intros [].
  - by rewrite decide_True.
Qed.

(** X4: [main] of Variant A leaves alone every path that is neither the
    [pixi.lock] of a discovered fixture nor inside the [.pixi] tree of one,
    as far as the tool leaves it alone; in particular it never removes or
    replaces a manifest it discovered. *)
Theorem main_leaves_other_paths_alone script w p :
  (∀ d m, (pixi d m).2 !! p = m !! p) →
  (p ∈ discovered script w ∨
   ∀ t, t ∈ discovered script w →
        p ≠ lock_of t ∧ Path.under (cache_of t) p = false) →
  fs (A.main pixi script w).2 !! p = fs w !! p.
Proof.
  intros Htool Hp.
  assert (∀ t, t ∈ discovered script w →
               p ≠ lock_of t ∧ Path.under (cache_of t) p = false) as Hp'.
  { destruct Hp as [Hin|Hp]; [|done]. intros t Ht.
    apply discovered_shape in Hin as [x ->].
    apply discovered_shape in Ht as [y ->].
    unfold lock_of, cache_of, Path.child. rewrite !parent_app2, <- !app_assoc.
    simpl. split.
    - intros Heq%app_inv_head. by simplify_eq.
    - apply cache_not_above_manifest. }
  destruct (decide (discovered script w = [])) as [Hd|Hd].
  { by rewrite (main_nothing pixi script w Hd). }
  destruct (main_summary pixi script w Hd) as (_ & _ & _ & Hfs).
  cbv zeta in Hfs. rewrite Hfs by (intros t Ht; by apply Hp').
  rewrite (loop_frame _ _ _ _ _ _ p (generate_loop_run pixi _ _ _ _));
    [done| |done].
  intros t Ht. by apply Hp'.
Qed.

(** ** One call per fixture *)

Lemma spawn_dirs_app l1 l2 :
  spawn_dirs (l1 ++ l2) = spawn_dirs l1 ++ spawn_dirs l2.
Proof. apply omap_app. Qed.

Lemma fixture_spawn_dirs t s f w o w' :
  fixture_run pixi t s f w o w' →
  spawn_dirs (produced w w') =
    match o with Done _ => [Path.parent t] | _ => [] end.
Proof.
  intros [e H1 H2|evs fs1 st tail fs2 H1 H2]; unfold emits;
    rewrite produced_emits; [done|].
  rewrite (spawn_dirs_app evs).
  assert (spawn_dirs evs = []) as -> by (by destruct H1).
  assert (spawn_dirs tail = []) as Ht by (by destruct H2).
  change (spawn_dirs (ESpawn ?r ?b :: tail)) with (req_cwd r :: spawn_dirs tail).
  by rewrite Ht.
Qed.

Lemma loop_spawn_dirs files s f w o w' :
  loop_run pixi files s f w o w' →
  spawn_dirs (produced w w') `prefix_of` map Path.parent files ∧
  (∀ s' f', o = Done (A.GenCounts s' f') →
            spawn_dirs (produced w w') = map Path.parent files).
Proof.
  induction 1 as [s f w|t rest s f w s' f' w1 o w' Hb Hl [IH1 IH2]|
                  t rest s f w r w1 Hb|t rest s f w e w1 Hb].
  - rewrite produced_refl. split; [by apply prefix_nil|done].
  - rewrite (produced_trans w w1 w' (proj2 (fixture_run_out _ _ _ _ _ _ _ Hb))
               (proj2 (loop_run_out _ _ _ _ _ _ _ Hl))).
    rewrite spawn_dirs_app, (fixture_spawn_dirs _ _ _ _ _ _ Hb). simpl. split.
    + by apply prefix_cons.
    + intros s'' f'' Ho. f_equal. by eapply IH2.
  - rewrite (fixture_spawn_dirs _ _ _ _ _ _ Hb). simpl. split.
    + apply prefix_cons, prefix_nil.
    + intros s' f' [= ->].
      apply (fixture_run_outcome pixi) in Hb as [_ [? _]]. done.
  - rewrite (fixture_spawn_dirs _ _ _ _ _ _ Hb). split; [apply prefix_nil|done].
Qed.

(** ** What Variant B does and does not do *)

Lemma generate_effects d name w :
  let r := B.generate pixi d name w in
  Forall B_event (produced w r.2) ∧
  spawn_dirs (produced w r.2) = [d] ∧
  (∀ p, (∀ d' m, (pixi d' m).2 !! p = m !! p) → fs r.2 !! p = fs w !! p).
Proof.
  cbv zeta. rewrite generate_eq. cbv zeta.
  pose proof (λ p (H : ∀ d' m, (pixi d' m).2 !! p = m !! p), H d (fs w)) as Hfr.
  destruct (pixi d (fs w)) as [[|secs r|] fs']; simpl in Hfr.
  - cbn [fst snd]. rewrite produced_app. split_and!; [|done..].
    by repeat constructor.
  - destruct (returncode r =? 0)%Z; cbn [fst snd]; rewrite produced_emits;
      (split_and!; [by repeat constructor|done|done]).
  - cbn [fst snd]. rewrite produced_emits. split_and!; [|done..].
    by repeat constructor.
Qed.

Lemma main_loop_effects base dirs w :
  let r := B.main_loop pixi base dirs w in
  Forall B_event (produced w r.2) ∧
  spawn_dirs (produced w r.2) `sublist_of` map (Path.child base) dirs ∧
  (∀ p, (∀ d m, (pixi d m).2 !! p = m !! p) → fs r.2 !! p = fs w !! p).
Proof.
  revert w. induction dirs as [|d rest IH]; intros w; cbv zeta.
  - simpl. rewrite produced_refl. split_and!; [constructor|done|done].
  - rewrite main_loop_cons. destruct (FS.exists_ (fs w) (base /: d)).
    + destruct (generate_effects (base /: d) d w) as (He & Hs & Hf).
      destruct (generate_cases pixi (base /: d) d w) as (_ & Ho & _).
      cbv zeta in *.
      destruct (B.generate pixi (base /: d) d w) as [[[]|e|] w1];
        cbn [fst snd] in *.
      * destruct (IH w1) as (He1 & Hs1 & Hf1). cbv zeta in *.
        destruct (main_loop_out pixi base rest w1) as [_ Ho1].
        rewrite (produced_trans _ _ _ Ho Ho1), spawn_dirs_app, Hs.
        split_and!.
        -- by apply Forall_app.
        -- simpl. by apply sublist_skip.
        -- intros p Hp. rewrite Hf1 by done. by apply Hf.
      * rewrite Hs. split_and!; [done| |done].
        simpl. apply sublist_skip, sublist_nil_l.
      * rewrite Hs. split_and!; [done| |done].
        simpl. apply sublist_skip, sublist_nil_l.
    + set (w1 := emits w [EPrint (MsgBDirNotFound (base /: d))]).
      destruct (IH w1) as (He1 & Hs1 & Hf1). cbv zeta in *.
      destruct (main_loop_out pixi base rest w1) as [_ Ho1].
      assert (out w1 = out w ++ produced w w1) as Ho
        by (subst w1; by rewrite produced_app).
      rewrite (produced_trans _ _ _ Ho Ho1), spawn_dirs_app.
      subst w1. rewrite produced_app in *. split_and!.
      * apply Forall_app. split; [by repeat constructor|done].
      * simpl. by apply sublist_cons.
      * done.
Qed.

Lemma B_main_produced script w :
  produced w (B.main pixi script w).2 =
    produced w (B.main_loop pixi (Path.parent script) B.PIXI_DIRS w).2 ++
    match (B.main_loop pixi (Path.parent script) B.PIXI_DIRS w).1 with
    | Done _ => [EPrint MsgBAllGenerated]
    | _ => []
    end ∧
  fs (B.main pixi script w).2 =
    fs (B.main_loop pixi (Path.parent script) B.PIXI_DIRS w).2 ∧
  exit_status (B.main pixi script w).1 =
    exit_status (B.main_loop pixi (Path.parent script) B.PIXI_DIRS w).1.
Proof.
  unfold B.main. cbv zeta. generalize B.PIXI_DIRS. intros dirs.
  destruct (main_loop_out pixi (Path.parent script) dirs w) as [_ Ho].
  unfold bind.
  destruct (B.main_loop pixi (Path.parent script) dirs w) as [[[]|e|] w1];
    cbn [fst snd] in *; rewrite ?app_nil_r; [|done..].
  split; [|done]. unfold print. cbn [snd]. unfold produced at 1. simpl.
  rewrite Ho, <- app_assoc. by rewrite drop_app_length.
Qed.

(** X5: Variant B deletes nothing: no run of its [main] contains an
    [unlink] or an [rmtree], and every path that the tool leaves alone is
    after the run as it was before.  The only effects of the script itself
    are its output and the calls of the tool. *)
Theorem variant_B_deletes_nothing script w :
  Forall (λ e, is_unlink e = false ∧ is_rmtree e = false)
    (produced w (B.main pixi script w).2) ∧
  (∀ p, (∀ d m, (pixi d m).2 !! p = m !! p) →
        fs (B.main pixi script w).2 !! p = fs w !! p).
Proof.
  destruct (B_main_produced script w) as (-> & -> & _).
  destruct (main_loop_effects (Path.parent script) B.PIXI_DIRS w)
    as (He & _ & Hf). cbv zeta in *.
  split; [|done]. apply Forall_app. split.
  - eapply Forall_impl; [done|]. by intros e (? & ? & _).
  - destruct (B.main_loop pixi _ _ w).1; by repeat constructor.
Qed.

(** X8: no fixture is attempted twice and none out of turn.  In Variant A
    the working directories of the calls of the tool, in order, are the
    directories of a first stretch of the manifests given to
    [generate_lock_files], and of all of them when it returns its counts.
    In Variant B they are, in order, some of the listed directories. *)
Theorem one_call_per_fixture_in_order :
  (∀ files w,
     spawn_dirs (produced w (A.generate_lock_files pixi files w).2)
       `prefix_of` map Path.parent files ∧
     (∀ s f, (A.generate_lock_files pixi files w).1 = Done (A.GenCounts s f) →
             spawn_dirs (produced w (A.generate_lock_files pixi files w).2) =
             map Path.parent files)) ∧
  (∀ script w,
     spawn_dirs (produced w (B.main pixi script w).2)
       `sublist_of` map (Path.child (Path.parent script)) B.PIXI_DIRS).
Proof.
  split.
  - intros files w. destruct (decide (files = [])) as [->|Hne].
    { simpl. unfold bind, print, ret. cbn [fst snd].
      change (emit w ?e) with (emits w [e]). rewrite produced_app.
      split; [by apply prefix_nil|done]. }
    rewrite generate_lock_files_nonempty by done.
    set (w1 := emits w [EPrint (MsgFound (length files))]).
    pose proof (generate_loop_run pixi files 0 0 w1) as Hl.
    rewrite (produced_trans w w1 _);
      [|subst w1; by rewrite produced_app|by eapply proj2, loop_run_out].
    rewrite spawn_dirs_app. subst w1. rewrite produced_app. simpl.
    destruct (loop_spawn_dirs _ _ _ _ _ _ Hl) as [H1 H2].
    split; [done|]. intros s f Ho. by eapply H2.
  - intros script w. destruct (B_main_produced script w) as (-> & _).
    destruct (main_loop_effects (Path.parent script) B.PIXI_DIRS w)
      as (_ & Hs & _). cbv zeta in *.
    rewrite spawn_dirs_app.
    assert (spawn_dirs
              match (B.main_loop pixi (Path.parent script) B.PIXI_DIRS w).1 with
              | Done _ => [EPrint MsgBAllGenerated]
              | _ => []
              end = []) as -> by (by destruct (B.main_loop pixi _ _ w).1).
    by rewrite app_nil_r.
Qed.

(** X10: Variant B prints "All pixi.lock files generated successfully!"
    exactly in the runs that end with status 0, and then as its last
    line. *)
Theorem all_generated_line_iff_status_0 script w :
  (EPrint MsgBAllGenerated ∈ produced w (B.main pixi script w).2 ↔
   exit_status (B.main pixi script w).1 = Some 0%Z) ∧
  (exit_status (B.main pixi script w).1 = Some 0%Z →
   ∃ l, produced w (B.main pixi script w).2 = l ++ [EPrint MsgBAllGenerated] ∧
        EPrint MsgBAllGenerated ∉ l).
Proof.
  destruct (B_main_produced script w) as (-> & _ & ->).
  destruct (main_loop_effects (Path.parent script) B.PIXI_DIRS w)
    as (He & _ & _). cbv zeta in *.
  assert (EPrint MsgBAllGenerated
            ∉ produced w (B.main_loop pixi (Path.parent script) B.PIXI_DIRS w).2)
    as Hnot.
  { intros Hin. rewrite Forall_forall in He. by apply He in Hin as (_ & _ & ?). }
  pose proof (main_loop_segments pixi (Path.parent script) B.PIXI_DIRS w)
    as [segs Hs]. cbv zeta in Hs.
  destruct (B.main_loop pixi (Path.parent script) B.PIXI_DIRS w).1 as [[]|e|].
  - split.
    + split; [done|]. intros _. apply elem_of_app. right. left.
    + intros _. by eexists.
  - destruct Hs as [-> _]. rewrite app_nil_r. split; [|done].
    split; [done|]. done.
  - rewrite app_nil_r. split; [|done]. split; [done|]. done.
Qed.

(** ** The cleaner, run and run again *)

Lemma remove_tree_outside m c p :
  Path.under c p = false → FS.remove_tree m c !! p = m !! p.
Proof.
  intros Hu. unfold FS.remove_tree. apply option_eq. intros n.
  rewrite map_lookup_filter_Some. simpl. split; [by intros [? _]|by intros ?].
Qed.

Lemma remove_tree_shrinks m c p :
  FS.remove_tree m c !! p = m !! p ∨ FS.remove_tree m c !! p = None.
Proof.
  destruct (Path.under c p) eqn:Hu.
  - right. unfold FS.remove_tree. apply map_lookup_filter_None. right.
    intros n _. simpl. by rewrite Hu.
  - left. by apply remove_tree_outside.
Qed.

Lemma remove_tree_below m c p :
  Path.under c p = true → FS.remove_tree m c !! p = None.
Proof.
  intros Hu. unfold FS.remove_tree. apply map_lookup_filter_None. right.
  intros n _. simpl. by rewrite Hu.
Qed.

Lemma under_refl c : Path.under c c = true.
Proof.
  unfold Path.under. apply bool_decide_eq_true.
  rewrite <- (app_nil_r c) at 2. by rewrite relative_to_app.
Qed.

Lemma rmtree_error_lookup w w' p :
  denied w' = denied w → fs w' !! p = fs w !! p →
  rmtree_error w' p = rmtree_error w p.
Proof. unfold rmtree_error. by intros -> ->. Qed.

Lemma cleanup_fixture_step t c f w :
  (fs w !! cache_of t = None ∧
   A.cleanup_fixture t c f w =
     (Done (c, f),
      emits w [EPrint (MsgNoPixiFolder (Path.name (Path.parent t)))])) ∨
  (∃ e, is_Some (fs w !! cache_of t) ∧ rmtree_error w (cache_of t) = Some e ∧
        A.cleanup_fixture t c f w =
          (Done (c, S f),
           emits w [EPrint (MsgFailedToDelete (Path.name (Path.parent t)) e)])) ∨
  (is_Some (fs w !! cache_of t) ∧ rmtree_error w (cache_of t) = None ∧
   A.cleanup_fixture t c f w =
     (Done (S c, f),
      World (FS.remove_tree (fs w) (cache_of t)) (denied w)
        (out w ++ [ERmtree (cache_of t);
                   EPrint (MsgDeleted (Path.name (Path.parent t)))]))).
Proof.
  destruct (fs w !! cache_of t) as [n|] eqn:Hc.
  - destruct (rmtree_error w (cache_of t)) as [e|] eqn:He.
    + right. left. exists e. split_and!; [done..|].
      by apply cleanup_fixture_fail.
    + right. right. split_and!; [done..|]. by apply cleanup_fixture_delete.
  - left. split; [done|]. by apply cleanup_fixture_skip.
Qed.

Lemma cleanup_loop_shrinks files c f w p :
  fs (A.cleanup_loop files c f w).2 !! p = fs w !! p ∨
  fs (A.cleanup_loop files c f w).2 !! p = None.
Proof.
  revert c f w. induction files as [|t rest IH]; intros c f w; [by left|].
  simpl. unfold bind.
  destruct (cleanup_fixture_step t c f w)
    as [(_ & ->)|[(e & _ & _ & ->)|(_ & _ & ->)]]; cbn [fst snd].
  - match goal with |- context [A.cleanup_loop rest ?c' ?f' ?w'] =>
      exact (IH c' f' w') end.
  - match goal with |- context [A.cleanup_loop rest ?c' ?f' ?w'] =>
      exact (IH c' f' w') end.
  - destruct (IH (S c) f (World (FS.remove_tree (fs w) (cache_of t)) (denied w)
                        (out w ++ [ERmtree (cache_of t);
                                   EPrint (MsgDeleted (Path.name (Path.parent t)))])))
      as [H|H]; [|by right].
    rewrite H. simpl. apply remove_tree_shrinks.
Qed.

Lemma cleanup_loop_denied files c f w :
  denied (A.cleanup_loop files c f w).2 = denied w.
Proof.
  destruct (cleanup_loop_total files c f w) as (c' & f' & w' & E & D & _).
  by rewrite E.
Qed.

(** Nothing more can be done for the cache of [t]: it is gone, or [rmtree]
    raises for it. *)
Lemma settled_kept w w' p :
  denied w' = denied w →
  (fs w' !! p = fs w !! p ∨ fs w' !! p = None) →
  (fs w !! p = None ∨ is_Some (rmtree_error w p)) →
  fs w' !! p = None ∨ is_Some (rmtree_error w' p).
Proof.
  intros Hd [Hs|Hn] [Hnone|He]; [left; congruence| |by left..].
  right. by rewrite (rmtree_error_lookup w w' p).
Qed.

Lemma cleanup_loop_settles files c f w t :
  t ∈ files →
  fs (A.cleanup_loop files c f w).2 !! cache_of t = None ∨
  is_Some (rmtree_error (A.cleanup_loop files c f w).2 (cache_of t)).
Proof.
  revert c f w. induction files as [|t' rest IH]; intros c f w Hin.
  { by apply elem_of_nil in Hin. }
  simpl. unfold bind.
  apply elem_of_cons in Hin as [->|Hin].
  2: { destruct (cleanup_fixture_step t' c f w)
         as [(_ & ->)|[(e & _ & _ & ->)|(_ & _ & ->)]]; cbn [fst snd];
         by apply IH. }
  destruct (cleanup_fixture_step t' c f w)
    as [(Hn & ->)|[(e & _ & He & ->)|(_ & _ & ->)]]; cbn [fst snd].
  - eapply settled_kept; [apply cleanup_loop_denied|apply cleanup_loop_shrinks|].
    by left.
  - eapply settled_kept; [apply cleanup_loop_denied|apply cleanup_loop_shrinks|].
    right. unfold rmtree_error in *. simpl. by rewrite He.
  - eapply settled_kept; [apply cleanup_loop_denied|apply cleanup_loop_shrinks|].
    left. simpl. apply remove_tree_below, under_refl.
Qed.

Lemma cleanup_loop_settled files c f w :
  (∀ t, t ∈ files →
        fs w !! cache_of t = None ∨ is_Some (rmtree_error w (cache_of t))) →
  ∃ f', (A.cleanup_loop files c f w).1 = Done (c, f') ∧
        fs (A.cleanup_loop files c f w).2 = fs w.
Proof.
  revert c f w. induction files as [|t rest IH]; intros c f w Hs.
  { by exists f. }
  simpl. unfold bind.
  destruct (cleanup_fixture_step t c f w)
    as [(_ & ->)|[(e & _ & _ & ->)|(Hc & He & _)]]; cbn [fst snd].
  - match goal with |- context [A.cleanup_loop rest ?c' ?f' ?w'] =>
      apply (IH c' f' w') end.
    intros t' Ht'. apply (Hs t'). by right.
  - match goal with |- context [A.cleanup_loop rest ?c' ?f' ?w'] =>
      apply (IH c' f' w') end.
    intros t' Ht'. apply (Hs t'). by right.
  - exfalso. destruct (Hs t ltac:(left)) as [Hn|[e' He']].
    + rewrite Hn in Hc. by destruct Hc.
    + congruence.
Qed.

Lemma cleanup_loop_removed files c f w p q :
  ERmtree p ∈ produced w (A.cleanup_loop files c f w).2 →
  Path.under p q = true →
  fs (A.cleanup_loop files c f w).2 !! q = None.
Proof.
  revert c f w. induction files as [|t rest IH]; intros c f w.
  { simpl. rewrite produced_refl. by intros ?%elem_of_nil. }
  destruct (cleanup_fixture_total t c f w) as (c1 & f1 & w1 & E1 & _ & O1 & _).
  destruct (cleanup_loop_total rest c1 f1 w1) as (c2 & f2 & w2 & E2 & _ & O2 & _).
  pose proof (cleanup_loop_shrinks rest c1 f1 w1 q) as Hsh.
  specialize (IH c1 f1 w1). rewrite E2 in IH, Hsh. cbn [snd] in IH, Hsh.
  assert (A.cleanup_loop (t :: rest) c f w = (Done (c2, f2), w2)) as ->.
  { simpl. unfold bind. rewrite E1. simpl. by rewrite E2. }
  cbn [snd]. rewrite (produced_trans _ _ _ O1 O2).
  intros [Hin|Hin]%elem_of_app Hu; [|by apply IH].
  destruct (cleanup_fixture_step t c f w)
    as [(_ & E)|[(e & _ & _ & E)|(_ & _ & E)]]; rewrite E in E1; simplify_eq.
  - rewrite produced_app in Hin. not_in Hin.
  - rewrite produced_app in Hin. not_in Hin.
  - rewrite produced_emits in Hin.
    apply elem_of_cons in Hin as [Hin|Hin]; [|not_in Hin]. simplify_eq.
    destruct Hsh as [Hsh|Hsh]; [|done]. rewrite Hsh. simpl.
    by apply remove_tree_below.
Qed.


End Extras.

(** * The further properties at sample inputs *)

Ltac find_path := apply (bool_decide_unpack _); vm_compute; exact I.

Lemma find_pyproject_files_exact_witness :
  let dir := Path.join ["repo"] (Path.of_string PIXI_TEST_DATA) in
  ∃ files,
    A.find_pyproject_files ["repo"] Ex.w_two = (Done files, Ex.w_two) ∧
    NoDup files ∧
    (∀ p, p ∈ files ↔
          is_Some (fs Ex.w_two !! p) ∧ ∃ x, p = dir ++ [x; "pyproject.toml"]) ∧
    (∀ x, dir ++ [x; "pyproject.toml"] ∈ files →
          Path.name (Path.parent (dir ++ [x; "pyproject.toml"])) = x ∧
          lock_of (dir ++ [x; "pyproject.toml"]) = dir ++ [x; "pixi.lock"] ∧
          cache_of (dir ++ [x; "pyproject.toml"]) = dir ++ [x; ".pixi"]).
Proof.
  apply (find_pyproject_files_exact ["repo"] Ex.w_two). by_eval.
Defined.

Lemma empty_branch_unreachable_from_main_witness :
  ToolNotFound
    ∈ classification
        (produced Ex.w_locked (A.main Ex.tool_absent Ex.script_A Ex.w_locked).2).
Proof.
  apply (proj1 (proj2 (proj2 (empty_branch_unreachable_from_main Ex.tool_absent))
                  Ex.script_A Ex.w_locked)).
  find_event.
Defined.

Lemma only_variant_B_can_hang_witness :
  (A.main Ex2.tool_hangs Ex.script_A Ex.w_fresh).1 ≠ Hung ∧
  (B.main Ex2.tool_hangs Ex.script_B Ex.w_B_two).1 = Hung.
Proof.
  split.
  - apply (proj1 (proj2 (only_variant_B_can_hang Ex2.tool_hangs))).
  - apply (proj2 (proj2 (proj2 (only_variant_B_can_hang Ex2.tool_hangs))
                    Ex.script_B Ex.w_B_two)).
    exists (B.pixi_install (Ex.base_B /: "test-pull-request-pixi")),
           (fs Ex.w_B_two).
    split; [find_event|reflexivity].
Defined.

Lemma main_leaves_other_paths_alone_witness :
  fs (A.main Ex.tool_by_name Ex.script_A Ex.w_two).2 !! Ex.toml "a" =
  fs Ex.w_two !! Ex.toml "a".
Proof.
  apply (main_leaves_other_paths_alone Ex.tool_by_name Ex.script_A Ex.w_two
           (Ex.toml "a")).
  - reflexivity.
  - left. find_path.
Defined.

Lemma variant_B_deletes_nothing_witness :
  fs (B.main Ex.tool_failing Ex.script_B Ex.w_B_two).2 !! Ex.base_B =
  fs Ex.w_B_two !! Ex.base_B.
Proof.
  apply (proj2 (variant_B_deletes_nothing Ex.tool_failing Ex.script_B Ex.w_B_two)
           Ex.base_B).
  reflexivity.
Defined.

Lemma deletions_target_locks_and_caches_witness :
  (∃ t, t ∈ discovered Ex.script_A Ex.w_locked ∧
        lock_of (Ex.toml "a") = lock_of t) ∧
  (∃ t, t ∈ discovered Ex.script_A Ex.w_locked ∧
        cache_of (Ex.toml "a") = cache_of t).
Proof.
  split.
  - apply (proj1 (deletions_target_locks_and_caches Ex.tool_ok
                    Ex.script_A Ex.w_locked)).
    find_event.
  - apply (proj2 (deletions_target_locks_and_caches Ex.tool_ok
                    Ex.script_A Ex.w_locked)).
    find_event.
Defined.


Lemma one_call_per_fixture_in_order_witness :
  spawn_dirs
    (produced Ex.w_two
       (A.generate_lock_files Ex.tool_ok [Ex.toml "b"; Ex.toml "a"] Ex.w_two).2) =
  map Path.parent [Ex.toml "b"; Ex.toml "a"].
Proof.
  apply (proj2 (proj1 (one_call_per_fixture_in_order Ex.tool_ok)
                  [Ex.toml "b"; Ex.toml "a"] Ex.w_two) 2%nat 0%nat).
  by_eval.
Defined.

Lemma summary_reports_the_outcomes_witness :
  let m := A.main Ex.tool_by_name Ex.script_A Ex.w_two in
  let cls := classification (produced Ex.w_two m.2) in
  1%nat = successes cls ∧
  1%nat = failures cls ∧
  (1 + 1)%nat = length (discovered Ex.script_A Ex.w_two) ∧
  (exit_status m.1 = Some 0%Z ↔ 1%nat = 0%nat) ∧
  (EPrint MsgSomeFailed ∈ produced Ex.w_two m.2 ↔ (0 < 1)%nat).
Proof.
  apply (summary_reports_the_outcomes Ex.tool_by_name Ex.script_A Ex.w_two
           1%nat 1%nat); find_event.
Defined.

Lemma all_generated_line_iff_status_0_witness :
  ∃ l,
    produced Ex.w_B_two (B.main Ex.tool_ok Ex.script_B Ex.w_B_two).2 =
      l ++ [EPrint MsgBAllGenerated] ∧
    EPrint MsgBAllGenerated ∉ l.
Proof.
  apply (proj2 (all_generated_line_iff_status_0 Ex.tool_ok
                  Ex.script_B Ex.w_B_two)).
  by_eval.
Defined.
